(** * A shallow embedding of the execution status engine, the step executor
      settings, the EVM submission checkpoint and the Permit2 message builder.

    Sources embedded here:
    - [src/execution/StatusManager.ts]     (module [StatusManager] below)
    - [BaseStepExecutor] (unnamed part 0)  (module [BaseStepExecutor])
    - [src/core/EVM/EVMStepExecutor.ts]    (module [EVMStepExecutor], lines 338-427 and 492-508)
    - Permit2 signature transfer (unnamed part 1) (module [Permit2])

    JavaScript objects that are mutated in place are modelled by explicit
    state passing: every operation returns the state of the objects it was
    handed next to its result, also when it throws. *)

From Stdlib Require Import ZArith String List Bool Lia.
From stdpp Require Import base decidable option list strings gmap.

Local Open Scope string_scope.
Local Open Scope list_scope.
Local Open Scope Z_scope.

(** ** JavaScript helpers *)

(** A completed call either returns a value or throws. *)
Inductive Result (E A : Type) : Type :=
| Ok (a : A)
| Throw (e : E).
Arguments Ok {E A} a.
Arguments Throw {E A} e.

Module JS.

(** [Array.prototype.find]: the first element satisfying the callback. *)
Definition find {A} (f : A -> bool) (l : list A) : option A := List.find f l.

(** [Array.prototype.findIndex]: the index of the first element satisfying
    the callback, [-1] when there is none. *)
Fixpoint findIndexFrom {A} (f : A -> bool) (i : Z) (l : list A) : Z :=
  match l with
  | [] => -1
  | x :: rest => if f x then i else findIndexFrom f (i + 1) rest
  end.

Definition findIndex {A} (f : A -> bool) (l : list A) : Z := findIndexFrom f 0 l.

(** [Array.prototype.filter]. *)
Definition filter {A} (f : A -> bool) (l : list A) : list A := List.filter f l.

(** [array.splice(start, deleteCount)], the array after the call.  A negative
    [start] counts from the end of the array, and both arguments are clamped
    to the array. *)
Definition splice {A} (l : list A) (start deleteCount : Z) : list A :=
  let len := Z.of_nat (length l) in
  let actualStart :=
    if start <? 0 then Z.max (len + start) 0 else Z.min start len in
  let actualDeleteCount := Z.min (Z.max deleteCount 0) (len - actualStart) in
  take (Z.to_nat actualStart) l
    ++ drop (Z.to_nat (actualStart + actualDeleteCount)) l.

(** In-place mutation of the object that [find] returns: the first element
    satisfying [f] is replaced by its mutated state, at the same position. *)
Fixpoint mutateFound {A} (f : A -> bool) (g : A -> A) (l : list A) : list A :=
  match l with
  | [] => []
  | x :: rest => if f x then g x :: rest else x :: mutateFound f g rest
  end.

(** An optional property of the source of a spread or of [Object.assign]
    overrides the target's when it is present. *)
Definition override {A} (target source : option A) : option A :=
  match source with
  | Some v => Some v
  | None => target
  end.

(** A key of a source object whose value may be [undefined]: [None] when the
    object has no such key, [Some value] when it has one, [value] being [None]
    for [undefined].  A present key is written onto the target whatever its
    value; an absent one leaves the target's property as it is. *)
Definition overwrite {A} (target : option A) (entry : option (option A)) : option A :=
  match entry with
  | Some value => value
  | None => target
  end.

End JS.

(** ** Data model *)

(** Modelled from the spec: the [Status] union of [@lifi/types] is not part of
    the sources.  The constructors are the status literals that the sources and
    the specification mention. *)
Inductive Status : Type :=
| NOT_STARTED
| STARTED
| ACTION_REQUIRED
| PERMIT_REQUIRED
| CHAIN_SWITCH_REQUIRED
| PENDING
| FAILED
| DONE
| RESUME
| CANCELLED.

#[global] Instance Status_eq_dec : EqDecision Status.
Proof. solve_decision. Defined.

(** Modelled from the spec: the [ProcessType] union of [@lifi/types] is not part
    of the sources.  It names the phase of a step that a process tracks. *)
Inductive ProcessType : Type :=
| TOKEN_ALLOWANCE
| PERMIT
| SWITCH_CHAIN
| SWAP
| CROSS_CHAIN
| RECEIVING_CHAIN
| TRANSACTION.

#[global] Instance ProcessType_eq_dec : EqDecision ProcessType.
Proof. solve_decision. Defined.

(** [a === b] on status and process type literals. *)
Definition status_eqb (a b : Status) : bool := bool_decide (a = b).
Definition type_eqb (a b : ProcessType) : bool := bool_decide (a = b).

Record ProcessError : Type := mkProcessError {
  code : string;
  errorMessage : string
}.

Module Process.

Record t : Type := mk {
  type : ProcessType;
  status : Status;
  startedAt : Z;
  message : option string;
  doneAt : option Z;
  failedAt : option Z;
  txHash : option string;
  txLink : option string;
  error : option ProcessError;
  substatus : option string;
  substatusMessage : option string;
  multisigTxHash : option string
}.

Definition set_status (v : Status) (p : t) : t :=
  mk (type p) v (startedAt p) (message p) (doneAt p) (failedAt p) (txHash p)
     (txLink p) (error p) (substatus p) (substatusMessage p) (multisigTxHash p).
Definition set_message (v : option string) (p : t) : t :=
  mk (type p) (status p) (startedAt p) v (doneAt p) (failedAt p) (txHash p)
     (txLink p) (error p) (substatus p) (substatusMessage p) (multisigTxHash p).
Definition set_doneAt (v : option Z) (p : t) : t :=
  mk (type p) (status p) (startedAt p) (message p) v (failedAt p) (txHash p)
     (txLink p) (error p) (substatus p) (substatusMessage p) (multisigTxHash p).
Definition set_failedAt (v : option Z) (p : t) : t :=
  mk (type p) (status p) (startedAt p) (message p) (doneAt p) v (txHash p)
     (txLink p) (error p) (substatus p) (substatusMessage p) (multisigTxHash p).
Definition set_txHash (v : option string) (p : t) : t :=
  mk (type p) (status p) (startedAt p) (message p) (doneAt p) (failedAt p) v
     (txLink p) (error p) (substatus p) (substatusMessage p) (multisigTxHash p).
Definition set_txLink (v : option string) (p : t) : t :=
  mk (type p) (status p) (startedAt p) (message p) (doneAt p) (failedAt p) (txHash p)
     v (error p) (substatus p) (substatusMessage p) (multisigTxHash p).
Definition set_error (v : option ProcessError) (p : t) : t :=
  mk (type p) (status p) (startedAt p) (message p) (doneAt p) (failedAt p) (txHash p)
     (txLink p) v (substatus p) (substatusMessage p) (multisigTxHash p).
Definition set_substatus (v : option string) (p : t) : t :=
  mk (type p) (status p) (startedAt p) (message p) (doneAt p) (failedAt p) (txHash p)
     (txLink p) (error p) v (substatusMessage p) (multisigTxHash p).
Definition set_substatusMessage (v : option string) (p : t) : t :=
  mk (type p) (status p) (startedAt p) (message p) (doneAt p) (failedAt p) (txHash p)
     (txLink p) (error p) (substatus p) v (multisigTxHash p).
Definition set_multisigTxHash (v : option string) (p : t) : t :=
  mk (type p) (status p) (startedAt p) (message p) (doneAt p) (failedAt p) (txHash p)
     (txLink p) (error p) (substatus p) (substatusMessage p) v.

End Process.

(** The properties of an execution that the [Receipt] interface of
    [StatusManager.ts] names, as the execution holds them: [None] is
    [undefined].  Tokens are kept abstract. *)
Record Receipt : Type := mkReceipt {
  fromAmount : option string;
  toAmount : option string;
  toToken : option string;
  gasPrice : option string;
  gasUsed : option string;
  gasToken : option string;
  gasAmount : option string;
  gasAmountUSD : option string
}.

Definition noReceipt : Receipt := mkReceipt None None None None None None None None.

(** A [receipt] argument of [updateExecution]: for each key of the [Receipt]
    interface, [None] when the object lacks it and [Some value] when it has
    it, [value] being [None] for [undefined]. *)
Record ReceiptEntries : Type := mkReceiptEntries {
  fromAmountEntry : option (option string);
  toAmountEntry : option (option string);
  toTokenEntry : option (option string);
  gasPriceEntry : option (option string);
  gasUsedEntry : option (option string);
  gasTokenEntry : option (option string);
  gasAmountEntry : option (option string);
  gasAmountUSDEntry : option (option string)
}.

(** The receipt without keys, [{}]. *)
Definition noReceiptEntries : ReceiptEntries :=
  mkReceiptEntries None None None None None None None None.

Module Execution.

Record t : Type := mk {
  status : Status;
  process : list Process.t;
  receipt : Receipt
}.

Definition set_status (v : Status) (e : t) : t := mk v (process e) (receipt e).
Definition set_process (v : list Process.t) (e : t) : t := mk (status e) v (receipt e).
Definition set_receipt (v : Receipt) (e : t) : t := mk (status e) (process e) v.

End Execution.

(** Modelled from the spec: the constant [emptyExecution] of [@lifi/types] is
    not part of the sources; the initializer "creates an empty Execution on
    first call", that is one without processes. *)
Definition emptyExecution : Execution.t := Execution.mk NOT_STARTED [] noReceipt.

(** [structuredClone] yields a fresh object with the same contents. *)
Definition structuredClone (e : Execution.t) : Execution.t := e.

Module Action.

(** The part of [step.action] that execution reads; [fromAmount] is the
    integer that [BigInt] reads from the amount string. *)
Record t : Type := mk {
  fromAddress : option string;
  fromToken : string;
  fromAmount : Z
}.

End Action.

Module Step.

(** A step: its identity, the quote, the optional properties that execution
    reads, and the mutable execution record. *)
Record t : Type := mk {
  id : string;
  tool : string;
  action : Action.t;
  transactionRequest : option string;
  permit : option string;
  permitData : option string;
  witness : option string;
  execution : option Execution.t
}.

Definition set_execution (v : option Execution.t) (s : t) : t :=
  mk (id s) (tool s) (action s) (transactionRequest s) (permit s) (permitData s)
     (witness s) v.

End Step.

(** [Object.assign(target, source)] on steps: every own property of [source] is
    written onto [target]; an optional property that [source] lacks keeps the
    target's value. *)
Definition Object_assign (target source : Step.t) : Step.t :=
  Step.mk (Step.id source) (Step.tool source) (Step.action source)
    (JS.override (Step.transactionRequest target) (Step.transactionRequest source))
    (JS.override (Step.permit target) (Step.permit source))
    (JS.override (Step.permitData target) (Step.permitData source))
    (JS.override (Step.witness target) (Step.witness source))
    (JS.override (Step.execution target) (Step.execution source)).

Record Route : Type := mkRoute {
  steps : list Step.t
}.

(** ** The status manager *)

(** [getProcessMessage] of [execution/utils.js] is not part of the sources; the
    manager is parameterised by it. *)
Class ProcessMessages : Type := {
  getProcessMessage : ProcessType -> Status -> option string
}.

Module StatusManager.

(** An invocation of one of the two propagation hooks, with the route it
    received. *)
Inductive HookCall : Type :=
| UpdateRouteHook (r : Route)
| InternalUpdateRouteCallback (r : Route).

(** The fields of the class, and the hook invocations made so far. *)
Record t : Type := mk {
  route : Route;
  shouldUpdate : bool;
  hookCalls : list HookCall
}.

(** The constructor: [shouldUpdate] starts as [true]. *)
Definition new (r : Route) : t := mk r true [].

(** [OptionalParameters]: for each key, [None] when the object lacks it and
    [Some value] when it has it, [value] being [None] for [undefined] (every
    key of a [Partial] may be present with that value). *)
Record OptionalParameters : Type := mkParams {
  doneAt : option (option Z);
  failedAt : option (option Z);
  txHash : option (option string);
  txLink : option (option string);
  error : option (option ProcessError);
  substatus : option (option string);
  substatusMessage : option (option string);
  multisigTxHash : option (option string)
}.

Definition noParams : OptionalParameters :=
  mkParams None None None None None None None None.

(** Computations over the manager and the [step] object that the caller
    passed; a thrown exception keeps the mutations made before it.  The state
    holds the caller's [step] and the steps of the route as separate values,
    and [route] is the route as the last propagation left it: propagation
    copies [step] onto the route's step of the same id.  In the source the
    caller's step can be the route's own step object, or share its execution
    object with it once it has been propagated; what such a shared object
    shows through the route between two propagations is not tracked by
    [route]: of the route, the properties of the operations below say only
    which ids its steps have, next to the hook calls and the flag.  The two
    hooks are recorded with the route they receive and are taken to return. *)
Definition M (A : Type) : Type := t -> Step.t -> t * Step.t * Result string A.

Definition ret {A} (a : A) : M A := fun sm step => (sm, step, Ok a).
Definition throw {A} (msg : string) : M A := fun sm step => (sm, step, Throw msg).
Definition bind {A B} (m : M A) (k : A -> M B) : M B :=
  fun sm step =>
    match m sm step with
    | (sm', step', Ok a) => k a sm' step'
    | (sm', step', Throw e) => (sm', step', Throw e)
    end.
Definition getStep : M Step.t := fun sm step => (sm, step, Ok step).
Definition putStep (step' : Step.t) : M unit := fun sm _ => (sm, step', Ok tt).

Declare Scope sm_scope.
Delimit Scope sm_scope with sm.
Notation "x <- m ;; k" := (bind m (fun x => k))
  (at level 100, m at next level, right associativity) : sm_scope.
Notation "m ;;; k" := (bind m (fun _ => k))
  (at level 100, right associativity) : sm_scope.

(** State of the objects after a call, and what the call produced. *)
Definition manager {A} (r : t * Step.t * Result string A) : t := fst (fst r).
Definition stepAfter {A} (r : t * Step.t * Result string A) : Step.t := snd (fst r).
Definition outcome {A} (r : t * Step.t * Result string A) : Result string A := snd r.

(** The process list of a step, empty when the step has no execution. *)
Definition processes (step : Step.t) : list Process.t :=
  match Step.execution step with
  | Some e => Execution.process e
  | None => []
  end.

Definition updateStepInRoute : M Step.t :=
  fun sm step =>
    if negb (shouldUpdate sm) then (sm, step, Ok step)
    else
      let stepIndex :=
        JS.findIndex (fun routeStep => String.eqb (Step.id routeStep) (Step.id step))
                     (steps (route sm)) in
      if stepIndex =? -1 then (sm, step, Throw "Couldn't find a step to update.")
      else
        match steps (route sm) !! Z.to_nat stepIndex with
        | None => (sm, step, Throw "TypeError: Cannot convert undefined or null to object")
        | Some target =>
            let updated := Object_assign target step in
            let route' := mkRoute (<[Z.to_nat stepIndex := updated]> (steps (route sm))) in
            (mk route' (shouldUpdate sm)
                (hookCalls sm ++ [UpdateRouteHook route'; InternalUpdateRouteCallback route']),
             step, Ok updated)
        end.

Definition allowUpdates (value : bool) (sm : t) : t :=
  mk (route sm) value (hookCalls sm).

Section Operations.
Context `{ProcessMessages}.
Local Open Scope sm_scope.

Definition initExecutionObject : M Execution.t :=
  step <- getStep ;;
  let currentExecution :=
    match Step.execution step with
    | Some e => e
    | None => structuredClone emptyExecution
    end in
  currentExecution <-
    match Step.execution step with
    | None =>
        let currentExecution := Execution.set_status PENDING currentExecution in
        putStep (Step.set_execution (Some currentExecution) step) ;;;
        updateStepInRoute ;;;
        ret currentExecution
    | Some _ => ret currentExecution
    end ;;
  (* Change status to PENDING after resuming from FAILED *)
  if status_eqb (Execution.status currentExecution) FAILED then
    let currentExecution := Execution.set_status PENDING currentExecution in
    step <- getStep ;;
    putStep (Step.set_execution (Some currentExecution) step) ;;;
    updateStepInRoute ;;;
    ret currentExecution
  else ret currentExecution.

(** The spread [{...step.execution, ...receipt}]: every key that [receipt] has
    is copied over the execution's, [undefined] included. *)
Definition mergeReceipt (e : Execution.t) (r : ReceiptEntries) : Execution.t :=
  Execution.set_receipt
    (mkReceipt
       (JS.overwrite (fromAmount (Execution.receipt e)) (fromAmountEntry r))
       (JS.overwrite (toAmount (Execution.receipt e)) (toAmountEntry r))
       (JS.overwrite (toToken (Execution.receipt e)) (toTokenEntry r))
       (JS.overwrite (gasPrice (Execution.receipt e)) (gasPriceEntry r))
       (JS.overwrite (gasUsed (Execution.receipt e)) (gasUsedEntry r))
       (JS.overwrite (gasToken (Execution.receipt e)) (gasTokenEntry r))
       (JS.overwrite (gasAmount (Execution.receipt e)) (gasAmountEntry r))
       (JS.overwrite (gasAmountUSD (Execution.receipt e)) (gasAmountUSDEntry r)))
    e.

Definition updateExecution (status : Status) (receipt : option ReceiptEntries)
  : M Step.t :=
  step <- getStep ;;
  match Step.execution step with
  | None => throw "Can't update empty execution."
  | Some e =>
      let e := Execution.set_status status e in
      let e := match receipt with
               | Some r => mergeReceipt e r
               | None => e
               end in
      putStep (Step.set_execution (Some e) step) ;;;
      updateStepInRoute ;;;
      step <- getStep ;;
      ret step
  end.

Definition findOrCreateProcess (type : ProcessType) (status : option Status) (now : Z)
  : M Process.t :=
  step <- getStep ;;
  match Step.execution step with
  | None => throw "Execution hasn't been initialized."
  | Some e =>
      let isType := fun p => type_eqb (Process.type p) type in
      match JS.find isType (Execution.process e) with
      | Some process =>
          match status with
          | Some s =>
              if negb (status_eqb (Process.status process) s) then
                let e := Execution.set_process
                           (JS.mutateFound isType (Process.set_status s)
                                           (Execution.process e)) e in
                putStep (Step.set_execution (Some e) step) ;;;
                updateStepInRoute ;;;
                ret (Process.set_status s process)
              else ret process
          | None => ret process
          end
      | None =>
          let status' := match status with Some s => s | None => STARTED end in
          let newProcess :=
            Process.mk type status' now (getProcessMessage type status')
                       None None None None None None None None in
          let e := Execution.set_process (Execution.process e ++ [newProcess]) e in
          putStep (Step.set_execution (Some e) step) ;;;
          updateStepInRoute ;;;
          ret newProcess
      end
  end.

(** The [switch (status)] of [updateProcess]: the status-specific defaults
    on the process and on the execution status. *)
Definition statusDefaults (status : Status) (now : Z)
           (currentProcess : Process.t) (executionStatus : Status)
  : Process.t * Status :=
  match status with
  | CANCELLED => (Process.set_doneAt (Some now) currentProcess, executionStatus)
  | FAILED => (Process.set_doneAt (Some now) currentProcess, FAILED)
  | DONE => (Process.set_doneAt (Some now) currentProcess, executionStatus)
  | PENDING => (currentProcess, PENDING)
  | ACTION_REQUIRED => (currentProcess, ACTION_REQUIRED)
  | _ => (currentProcess, executionStatus)
  end.

(** The loop over [Object.entries(params)]: every key that [params] has is
    written onto the process with its value, [undefined] included. *)
Definition assign {A} (entry : option (option A))
           (set : option A -> Process.t -> Process.t)
           (p : Process.t) : Process.t :=
  match entry with
  | Some value => set value p
  | None => p
  end.

Definition applyParams (params : OptionalParameters) (p : Process.t) : Process.t :=
  let p := assign (doneAt params) Process.set_doneAt p in
  let p := assign (failedAt params) Process.set_failedAt p in
  let p := assign (txHash params) Process.set_txHash p in
  let p := assign (txLink params) Process.set_txLink p in
  let p := assign (error params) Process.set_error p in
  let p := assign (substatus params) Process.set_substatus p in
  let p := assign (substatusMessage params) Process.set_substatusMessage p in
  assign (multisigTxHash params) Process.set_multisigTxHash p.

(** The state of [currentProcess] once [updateProcess] has written to it. *)
Definition updatedProcess (type : ProcessType) (status : Status)
           (params : option OptionalParameters) (now : Z)
           (currentProcess : Process.t) : Process.t :=
  let p := fst (statusDefaults status now currentProcess NOT_STARTED) in
  let p := Process.set_status status p in
  let p := Process.set_message (getProcessMessage type status) p in
  match params with
  | Some ps => applyParams ps p
  | None => p
  end.

Definition isDone (p : Process.t) : bool := status_eqb (Process.status p) DONE.

(** Processes with DONE status go first. *)
Definition sortProcesses (l : list Process.t) : list Process.t :=
  JS.filter isDone l ++ JS.filter (fun p => negb (isDone p)) l.

Definition updateProcess (type : ProcessType) (status : Status)
           (params : option OptionalParameters) (now : Z) : M Process.t :=
  step <- getStep ;;
  match Step.execution step with
  | None => throw "Can't update an empty step execution."
  | Some e =>
      let isType := fun p => type_eqb (Process.type p) type in
      match JS.find isType (Execution.process e) with
      | None => throw "Can't find a process for the given type."
      | Some currentProcess =>
          let executionStatus :=
            snd (statusDefaults status now currentProcess (Execution.status e)) in
          let written :=
            JS.mutateFound isType (updatedProcess type status params now)
                           (Execution.process e) in
          let e := Execution.mk executionStatus (sortProcesses written)
                                (Execution.receipt e) in
          putStep (Step.set_execution (Some e) step) ;;;
          updateStepInRoute ;;;
          ret (updatedProcess type status params now currentProcess)
      end
  end.

Definition removeProcess (type : ProcessType) : M unit :=
  step <- getStep ;;
  match Step.execution step with
  | None => throw "Execution hasn't been initialized."
  | Some e =>
      let index :=
        JS.findIndex (fun p => type_eqb (Process.type p) type) (Execution.process e) in
      let e := Execution.set_process (JS.splice (Execution.process e) index 1) e in
      putStep (Step.set_execution (Some e) step) ;;;
      updateStepInRoute ;;;
      ret tt
  end.

(** A call of one of the two process operations, as a caller issues it. *)
Inductive Call : Type :=
| FindOrCreateProcess (type : ProcessType) (status : option Status) (now : Z)
| UpdateProcess (type : ProcessType) (status : Status)
                (params : option OptionalParameters) (now : Z).

Definition call (c : Call) : M Process.t :=
  match c with
  | FindOrCreateProcess type status now => findOrCreateProcess type status now
  | UpdateProcess type status params now => updateProcess type status params now
  end.

(** A caller issuing calls one after the other on the same step, going on
    after a call that threw. *)
Fixpoint callAll (cs : list Call) (sm : t) (step : Step.t) : t * Step.t :=
  match cs with
  | [] => (sm, step)
  | c :: rest =>
      let r := call c sm step in
      callAll rest (manager r) (stepAfter r)
  end.

End Operations.

(** The statuses after which a phase is over. *)
Definition isTerminal (s : Status) : bool :=
  match s with
  | DONE | FAILED | CANCELLED => true
  | _ => false
  end.

(** The processes of a list that have the given type. *)
Definition ofType (type : ProcessType) (l : list Process.t) : list Process.t :=
  JS.filter (fun p => type_eqb (Process.type p) type) l.

(** At most one process of each type. *)
Definition atMostOnePerType (l : list Process.t) : Prop :=
  forall type, (length (ofType type l) <= 1)%nat.

(** The [DONE] processes form a prefix of the list. *)
Definition doneFirst (l : list Process.t) : Prop :=
  exists k : nat,
    Forall (fun p => Process.status p = DONE) (take k l) /\
    Forall (fun p => Process.status p <> DONE) (drop k l).

(** [after] holds the processes of [before], each as often as [before] does:
    first those with status DONE, then the others, each of the two groups in
    the order it has in [before]. *)
Definition partitionedDoneFirst (before after : list Process.t) : Prop :=
  exists done rest : list Process.t,
    after = done ++ rest /\
    Forall (fun p => Process.status p = DONE) done /\
    Forall (fun p => Process.status p <> DONE) rest /\
    sublist done before /\
    sublist rest before /\
    Permutation before after.

End StatusManager.

(** ** The step executor settings *)

Module Interaction.

(** The shape of [defaultInteractionSettings], and of the settings once
    they have been spread over it: every flag is there. *)
Record t : Type := mk {
  allowInteraction : bool;
  allowUpdates : bool;
  allowExecution : bool
}.

End Interaction.

Module InteractionSettings.

(** The interface [InteractionSettings]: [None] is an omitted flag, and a flag
    that is given is a boolean, as the interface declares it. *)
Record t : Type := mk {
  allowInteraction : option bool;
  allowUpdates : option bool;
  allowExecution : option bool
}.

(** The object [{}]. *)
Definition empty : t := mk None None None.

End InteractionSettings.

Module BaseStepExecutor.

(* Please be careful when changing the defaults as it may break the behavior
   (e.g., background execution) *)
Definition defaultInteractionSettings : Interaction.t :=
  Interaction.mk true true true.

(** [{ ...defaults, ...settings }]; spreading [undefined] adds nothing. *)
Definition spread (defaults : Interaction.t) (settings : option InteractionSettings.t)
  : Interaction.t :=
  match settings with
  | None => defaults
  | Some s =>
      Interaction.mk
        (default (Interaction.allowInteraction defaults)
                 (InteractionSettings.allowInteraction s))
        (default (Interaction.allowUpdates defaults)
                 (InteractionSettings.allowUpdates s))
        (default (Interaction.allowExecution defaults)
                 (InteractionSettings.allowExecution s))
  end.

Record t : Type := mk {
  statusManager : StatusManager.t;
  allowUserInteraction : bool;
  allowExecution : bool
}.

(** The constructor: both flags start as [true]. *)
Definition new (statusManager : StatusManager.t) : t := mk statusManager true true.

Definition setInteraction (settings : option InteractionSettings.t) (this : t) : t :=
  let interactionSettings := spread defaultInteractionSettings settings in
  mk (StatusManager.allowUpdates (Interaction.allowUpdates interactionSettings)
                                 (statusManager this))
     (Interaction.allowInteraction interactionSettings)
     (Interaction.allowExecution interactionSettings).

End BaseStepExecutor.

(** ** The EVM step executor: from the checkpoint to the submission *)

Module Call.

Record t : Type := mk {
  chainId : option Z;
  data : option string;
  to : option string;
  value : option Z
}.

End Call.

Module TransactionParameters.

Record t : Type := mk {
  to : option string;
  from : option string;
  data : option string;
  value : option Z;
  gas : option Z;
  gasPrice : option Z;
  maxFeePerGas : option Z;
  maxPriorityFeePerGas : option Z
}.

Definition set_to (v : option string) (r : t) : t :=
  mk v (from r) (data r) (value r) (gas r) (gasPrice r) (maxFeePerGas r)
     (maxPriorityFeePerGas r).
Definition set_data (v : option string) (r : t) : t :=
  mk (to r) (from r) v (value r) (gas r) (gasPrice r) (maxFeePerGas r)
     (maxPriorityFeePerGas r).
Definition set_gas (v : option Z) (r : t) : t :=
  mk (to r) (from r) (data r) (value r) v (gasPrice r) (maxFeePerGas r)
     (maxPriorityFeePerGas r).

End TransactionParameters.

Module EVMStepExecutor.

(** The part of the chain configuration that the submission reads. *)
Record Chain : Type := mkChain {
  id : Z;
  permit2Proxy : option string
}.

Record NativePermit : Type := mkNativePermit {
  supported : bool
}.

Record PermitSignature : Type := mkPermitSignature {
  signature : string;
  signedData : string
}.

(** The error that [parseEVMErrors] builds: its code and the message of its
    cause. *)
Record SDKError : Type := mkSDKError {
  errorCode : string;
  causeMessage : string
}.

(** A value thrown inside [executeStep]. *)
Inductive Exception : Type :=
| Error (message : string)
| SDK (error : SDKError).

Record SignPermitParameters : Type := mkSignPermit {
  signTransactionRequest : TransactionParameters.t;
  signChain : Chain;
  tokenAddress : string;
  signAmount : Z;
  signNativePermit : NativePermit;
  signPermitData : option string;
  useWitness : bool
}.

Record RelayParameters : Type := mkRelay {
  tokenOwner : string;
  relayChainId : Z;
  relayPermit : option string;
  relayWitness : option string;
  signedPermitData : string;
  callData : option string
}.

(** The awaited calls to the wallet, the relayer and the error classifier, each
    with the type of what it resolves to; a rejected promise resolves to
    [Throw]. *)
Inductive Request : Type -> Type :=
| SendCalls (account : string) (calls : list Call.t)
  : Request (Result Exception string)
| SignPermitMessage (parameters : SignPermitParameters)
  : Request (Result Exception PermitSignature)
| EstimateGas (account : string) (to data : option string) (value : option Z)
  : Request (Result Exception Z)
| RelayTransaction (parameters : RelayParameters)
  : Request (Result Exception string)
| SendTransaction (account : string) (parameters : TransactionParameters.t)
  : Request (Result Exception string)
| ParseEVMErrors (e : Exception) (step : Step.t) (process : Process.t)
  : Request SDKError.

(** An asynchronous function body: it ends with a value, or awaits a request
    and goes on with what the request resolved to. *)
Inductive Program (A : Type) : Type :=
| Return (a : A)
| Await {X : Type} (request : Request X) (continue : X -> Program A).
Arguments Return {A} a.
Arguments Await {A X} request continue.

(** The requests that submit a transaction. *)
Definition submits {X : Type} (request : Request X) : bool :=
  match request with
  | SendCalls _ _ | RelayTransaction _ | SendTransaction _ _ => true
  | _ => false
  end.

(** The requests a program makes when [answer] resolves them, flagged by
    whether they submit a transaction, and what the program ends with. *)
Fixpoint run {A : Type} (answer : forall X : Type, Request X -> X) (p : Program A)
  : list bool * A :=
  match p with
  | Return a => ([], a)
  | Await request continue =>
      let '(made, a) := run answer (continue (answer _ request)) in
      (submits request :: made, a)
  end.

(** How the modelled part of [executeStep] ends. *)
Inductive Completion : Type :=
| Returned (step : Step.t)
| Submitted (process : Process.t) (txHash : string)
            (transactionRequest : TransactionParameters.t)
| Threw (e : Exception).

(** The local variables of [executeStep] when control reaches line 338. *)
Record Locals : Type := mkLocals {
  account : string;
  fromChain : Chain;
  atomicBatchSupported : bool;
  permitSupported : bool;
  isPermitStep : bool;
  nativePermit : NativePermit;
  calls : list Call.t;
  transactionRequest : TransactionParameters.t
}.

(** The readings of [Date.now()] by the three [updateProcess] calls. *)
Record Clock : Type := mkClock {
  atCheckpoint : Z;
  afterSigning : Z;
  atFailure : Z
}.

Definition withStatusManager (sm : StatusManager.t) (this : BaseStepExecutor.t)
  : BaseStepExecutor.t :=
  BaseStepExecutor.mk sm (BaseStepExecutor.allowUserInteraction this)
                      (BaseStepExecutor.allowExecution this).

(** The status that line 341 passes. *)
Definition requiredStatus (locals : Locals) : Status :=
  if permitSupported locals then PERMIT_REQUIRED else ACTION_REQUIRED.

Section ExecuteStep.
Context `{ProcessMessages}.

Definition Outcome : Type := BaseStepExecutor.t * Step.t * Completion.

(** The [catch] block, lines 492-508. *)
Definition catchBlock (clock : Clock) (this : BaseStepExecutor.t) (step : Step.t)
           (process : Process.t) (e : Exception) : Program Outcome :=
  Await (ParseEVMErrors e step process) (fun error =>
    match StatusManager.updateProcess (Process.type process) FAILED
            (Some (StatusManager.mkParams None None None None
                     (Some (Some (mkProcessError (errorCode error)
                                                 (causeMessage error))))
                     None None None))
            (atFailure clock) (BaseStepExecutor.statusManager this) step with
    | (sm, step, Throw m) => Return (withStatusManager sm this, step, Threw (Error m))
    | (sm, step, Ok process) =>
        match StatusManager.updateExecution FAILED None sm step with
        | (sm, step, Throw m) => Return (withStatusManager sm this, step, Threw (Error m))
        | (sm, step, Ok _) => Return (withStatusManager sm this, step, Threw (SDK error))
        end
    end).

(** The plain submission, lines 412-425. *)
Definition sendPlain (clock : Clock) (this : BaseStepExecutor.t) (locals : Locals)
           (step : Step.t) (process : Process.t)
           (transactionRequest : TransactionParameters.t) : Program Outcome :=
  Await (SendTransaction (account locals)
           (TransactionParameters.mk
              (TransactionParameters.to transactionRequest) None
              (TransactionParameters.data transactionRequest)
              (TransactionParameters.value transactionRequest)
              (TransactionParameters.gas transactionRequest)
              (TransactionParameters.gasPrice transactionRequest)
              (TransactionParameters.maxFeePerGas transactionRequest)
              (TransactionParameters.maxPriorityFeePerGas transactionRequest)))
        (fun sent =>
           match sent with
           | Throw e => catchBlock clock this step process e
           | Ok txHash => Return (this, step, Submitted process txHash transactionRequest)
           end).

(** The relayed submission, lines 402-410. *)
Definition sendRelayed (clock : Clock) (this : BaseStepExecutor.t) (locals : Locals)
           (step : Step.t) (process : Process.t) (permitSignature : PermitSignature)
           (transactionRequest : TransactionParameters.t) : Program Outcome :=
  Await (RelayTransaction
           (mkRelay (account locals) (id (fromChain locals))
                    (Step.permit step) (Step.witness step)
                    (signature permitSignature)
                    (TransactionParameters.data transactionRequest)))
        (fun relayed =>
           match relayed with
           | Throw e => catchBlock clock this step process e
           | Ok taskId => Return (this, step, Submitted process taskId transactionRequest)
           end).

(** Lines 338-427 of [executeStep], inside the [try]: record that the user has
    to act, stop there when interaction is not allowed, and otherwise submit
    through one of the three channels. *)
Definition submitTransaction (clock : Clock) (this : BaseStepExecutor.t) (locals : Locals)
           (step : Step.t) (process : Process.t) : Program Outcome :=
  match StatusManager.updateProcess (Process.type process) (requiredStatus locals) None
          (atCheckpoint clock) (BaseStepExecutor.statusManager this) step with
  | (sm, step, Throw m) => catchBlock clock (withStatusManager sm this) step process (Error m)
  | (sm, step, Ok process) =>
      let this := withStatusManager sm this in
      if negb (BaseStepExecutor.allowUserInteraction this) then
        Return (this, step, Returned step)
      else if atomicBatchSupported locals then
        let transactionRequest := transactionRequest locals in
        let transferCall :=
          Call.mk (Some (id (fromChain locals)))
                  (TransactionParameters.data transactionRequest)
                  (TransactionParameters.to transactionRequest)
                  (TransactionParameters.value transactionRequest) in
        Await (SendCalls (account locals) (calls locals ++ [transferCall]))
              (fun sent =>
                 match sent with
                 | Throw e => catchBlock clock this step process e
                 | Ok txHash =>
                     Return (this, step, Submitted process txHash transactionRequest)
                 end)
      else if permitSupported locals then
        Await (SignPermitMessage
                 (mkSignPermit (transactionRequest locals) (fromChain locals)
                    (Action.fromToken (Step.action step))
                    (Action.fromAmount (Step.action step))
                    (nativePermit locals)
                    (if isPermitStep locals then Step.permitData step else None)
                    (isPermitStep locals)))
              (fun signed =>
                 match signed with
                 | Throw e => catchBlock clock this step process e
                 | Ok permitSignature =>
                     let transactionRequest :=
                       TransactionParameters.set_data (Some (signedData permitSignature))
                         (TransactionParameters.set_to (permit2Proxy (fromChain locals))
                            (transactionRequest locals)) in
                     (* Try to re-estimate the gas due to additional Permit data *)
                     Await (EstimateGas (account locals)
                              (TransactionParameters.to transactionRequest)
                              (TransactionParameters.data transactionRequest)
                              (TransactionParameters.value transactionRequest))
                           (fun estimated =>
                              let transactionRequest :=
                                TransactionParameters.set_gas
                                  (match estimated with
                                   | Ok gas => Some gas
                                   | Throw _ => None
                                   end) transactionRequest in
                              match StatusManager.updateProcess (Process.type process)
                                      ACTION_REQUIRED None (afterSigning clock)
                                      (BaseStepExecutor.statusManager this) step with
                              | (sm, step, Throw m) =>
                                  catchBlock clock (withStatusManager sm this) step
                                             process (Error m)
                              | (sm, step, Ok process) =>
                                  let this := withStatusManager sm this in
                                  if isPermitStep locals then
                                    sendRelayed clock this locals step process
                                                permitSignature transactionRequest
                                  else
                                    sendPlain clock this locals step process
                                              transactionRequest
                              end)
                 end)
      else sendPlain clock this locals step process (transactionRequest locals)
  end.

End ExecuteStep.

End EVMStepExecutor.

(** ** The Permit2 message builder *)

Module Permit2.

(** A member of an EIP-712 struct type. *)
Record TypedDataParameter : Type := param {
  name : string;
  type : string
}.

(** [TypedData]: the members of each named struct type. *)
Abbreviation TypedData := (gmap string (list TypedDataParameter)).

(** What the builder takes from its surroundings: the range constants of
    [constants.js], [permit2Domain] of [domain.js], and [hashTypedData] of
    the typed-data library, which validates its argument and may throw.  The
    witness value has type [any]. *)
Class Environment : Type := {
  WitnessValue : Type;
  TypedDataDomain : Type;
  Hash : Type;
  MaxSigDeadline : Z;
  MaxSignatureTransferAmount : Z;
  MaxUnorderedNonce : Z;
  permit2Domain : string -> Z -> TypedDataDomain
}.

(** The value a failed check throws. *)
Inductive Exception : Type :=
| InvariantError (message : string)
| TypedDataError (message : string).

(** Modelled from the spec: [invariant] of [utils/invariant.js] is not part
    of the sources; a violated condition "fails fast with a named validation
    error". *)
Definition invariant (condition : bool) (message : string) : Result Exception unit :=
  if condition then Ok tt else Throw (InvariantError message).

Section Builder.
Context `{Environment}.

Record Witness : Type := mkWitness {
  witness : WitnessValue;
  witnessTypeName : string;
  witnessType : TypedData
}.

Record TokenPermissions : Type := mkTokenPermissions {
  token : string;
  amount : Z
}.

(** [PermitTransferFrom], or [PermitBatchTransferFrom] when [Permitted] is
    an array type.  [witnessProperty] is the property named [witness] that
    the builders add to the object, [None] while the object has none. *)
Record PermitOf (Permitted : Type) : Type := mkPermit {
  permitted : Permitted;
  spender : string;
  nonce : Z;
  deadline : Z;
  witnessProperty : option WitnessValue
}.
Arguments mkPermit {Permitted}.
Arguments permitted {Permitted}.
Arguments spender {Permitted}.
Arguments nonce {Permitted}.
Arguments deadline {Permitted}.
Arguments witnessProperty {Permitted}.

Definition PermitTransferFrom : Type := PermitOf TokenPermissions.
Definition PermitBatchTransferFrom : Type := PermitOf (list TokenPermissions).

(** [Object.assign(permit, { witness: value })]. *)
Definition assignWitness {Permitted} (permit : PermitOf Permitted) (value : WitnessValue)
  : PermitOf Permitted :=
  mkPermit (permitted permit) (spender permit) (nonce permit) (deadline permit)
           (Some value).

(** [PermitTransferFromData] and [PermitBatchTransferFromData]; [values] is
    the permit object itself. *)
Record DataOf (Permitted : Type) : Type := mkData {
  domain : TypedDataDomain;
  types : TypedData;
  values : PermitOf Permitted
}.
Arguments mkData {Permitted}.
Arguments domain {Permitted}.
Arguments types {Permitted}.
Arguments values {Permitted}.

Definition PermitTransferFromData : Type := DataOf TokenPermissions.
Definition PermitBatchTransferFromData : Type := DataOf (list TokenPermissions).

Definition TOKEN_PERMISSIONS : list TypedDataParameter :=
  [param "token" "address"; param "amount" "uint256"].

Definition PERMIT_TRANSFER_FROM_TYPES : TypedData :=
  <["PermitTransferFrom" :=
      [param "permitted" "TokenPermissions"; param "spender" "address";
       param "nonce" "uint256"; param "deadline" "uint256"]]>
    {["TokenPermissions" := TOKEN_PERMISSIONS]}.

Definition PERMIT_BATCH_TRANSFER_FROM_TYPES : TypedData :=
  <["PermitBatchTransferFrom" :=
      [param "permitted" "TokenPermissions[]"; param "spender" "address";
       param "nonce" "uint256"; param "deadline" "uint256"]]>
    {["TokenPermissions" := TOKEN_PERMISSIONS]}.

(** A permit of either kind; [isPermitTransferFrom] tests whether
    [permitted] is an array. *)
Inductive Permit : Type :=
| Single (permit : PermitTransferFrom)
| Batch (permit : PermitBatchTransferFrom).

Definition isPermitTransferFrom (permit : Permit) : bool :=
  match permit with
  | Single _ => true
  | Batch _ => false
  end.

Inductive PermitData : Type :=
| SingleData (data : PermitTransferFromData)
| BatchData (data : PermitBatchTransferFromData).

Definition validateTokenPermissions (permissions : TokenPermissions)
  : Result Exception unit :=
  invariant (MaxSignatureTransferAmount >=? amount permissions) "AMOUNT_OUT_OF_RANGE".

(** [array.forEach(callback)], stopping at the first call that throws. *)
Fixpoint forEach {A} (callback : A -> Result Exception unit) (l : list A)
  : Result Exception unit :=
  match l with
  | [] => Ok tt
  | x :: rest =>
      match callback x with
      | Ok _ => forEach callback rest
      | Throw e => Throw e
      end
  end.

(** Each builder returns the state of the caller's permit object next to
    its result. *)
Definition getPermitTransferData (permit : PermitTransferFrom)
           (permit2Address : string) (chainId : Z) (witness : option Witness)
  : PermitTransferFrom * Result Exception PermitTransferFromData :=
  match invariant (MaxSigDeadline >=? deadline permit) "SIG_DEADLINE_OUT_OF_RANGE" with
  | Throw e => (permit, Throw e)
  | Ok _ =>
  match invariant (MaxUnorderedNonce >=? nonce permit) "NONCE_OUT_OF_RANGE" with
  | Throw e => (permit, Throw e)
  | Ok _ =>
  let domain := permit2Domain permit2Address chainId in
  match validateTokenPermissions (permitted permit) with
  | Throw e => (permit, Throw e)
  | Ok _ =>
  let types :=
    match witness with
    | Some w =>
        <["PermitWitnessTransferFrom" :=
            [param "permitted" "TokenPermissions"; param "spender" "address";
             param "nonce" "uint256"; param "deadline" "uint256";
             param "witness" (witnessTypeName w)]]>
          (witnessType w ∪ {["TokenPermissions" := TOKEN_PERMISSIONS]})
    | None => PERMIT_TRANSFER_FROM_TYPES
    end in
  let values :=
    match witness with
    | Some (mkWitness value _ _) => assignWitness permit value
    | None => permit
    end in
  (values, Ok (mkData domain types values))
  end end end.

Definition getPermitBatchTransferData (permit : PermitBatchTransferFrom)
           (permit2Address : string) (chainId : Z) (witness : option Witness)
  : PermitBatchTransferFrom * Result Exception PermitBatchTransferFromData :=
  match invariant (MaxSigDeadline >=? deadline permit) "SIG_DEADLINE_OUT_OF_RANGE" with
  | Throw e => (permit, Throw e)
  | Ok _ =>
  match invariant (MaxUnorderedNonce >=? nonce permit) "NONCE_OUT_OF_RANGE" with
  | Throw e => (permit, Throw e)
  | Ok _ =>
  let domain := permit2Domain permit2Address chainId in
  match forEach validateTokenPermissions (permitted permit) with
  | Throw e => (permit, Throw e)
  | Ok _ =>
  let types :=
    match witness with
    | Some w =>
        <["PermitBatchWitnessTransferFrom" :=
            [param "permitted" "TokenPermissions[]"; param "spender" "address";
             param "nonce" "uint256"; param "deadline" "uint256";
             param "witness" (witnessTypeName w)]]>
          (<["TokenPermissions" := TOKEN_PERMISSIONS]> (witnessType w))
    | None => PERMIT_BATCH_TRANSFER_FROM_TYPES
    end in
  let values :=
    match witness with
    | Some (mkWitness value _ _) => assignWitness permit value
    | None => permit
    end in
  (values, Ok (mkData domain types values))
  end end end.

(* return the data to be sent in a eth_signTypedData RPC call
   for signing the given permit data *)
Definition getPermitData (permit : Permit) (permit2Address : string) (chainId : Z)
           (witness : option Witness) : Permit * Result Exception PermitData :=
  match permit with
  | Single p =>
      match getPermitTransferData p permit2Address chainId witness with
      | (p', Ok data) => (Single p', Ok (SingleData data))
      | (p', Throw e) => (Single p', Throw e)
      end
  | Batch p =>
      match getPermitBatchTransferData p permit2Address chainId witness with
      | (p', Ok data) => (Batch p', Ok (BatchData data))
      | (p', Throw e) => (Batch p', Throw e)
      end
  end.

(** The argument of [hashTypedData]; [message] is a copy of [values]. *)
Record TypedDataDefinition : Type := mkDefinition {
  definitionDomain : TypedDataDomain;
  definitionTypes : TypedData;
  primaryType : string;
  message : Permit
}.

Definition hash (hashTypedData : TypedDataDefinition -> Result Exception Hash)
           (permit : Permit) (permit2Address : string) (chainId : Z)
           (witness : option Witness) : Permit * Result Exception Hash :=
  match permit with
  | Single p =>
      match getPermitTransferData p permit2Address chainId witness with
      | (p', Throw e) => (Single p', Throw e)
      | (p', Ok data) =>
          (Single p',
           hashTypedData
             (mkDefinition (domain data) (types data)
                (match witness with
                 | Some _ => "PermitWitnessTransferFrom"
                 | None => "PermitTransferFrom"
                 end)
                (Single (values data))))
      end
  | Batch p =>
      match getPermitBatchTransferData p permit2Address chainId witness with
      | (p', Throw e) => (Batch p', Throw e)
      | (p', Ok data) =>
          (Batch p',
           hashTypedData
             (mkDefinition (domain data) (types data)
                (match witness with
                 | Some _ => "PermitBatchWitnessTransferFrom"
                 | None => "PermitBatchTransferFrom"
                 end)
                (Batch (values data))))
      end
  end.

(** The types that a successful call builds. *)
Definition builtTypes (batch : bool) (witness : option Witness) : TypedData :=
  match batch, witness with
  | false, None => PERMIT_TRANSFER_FROM_TYPES
  | true, None => PERMIT_BATCH_TRANSFER_FROM_TYPES
  | false, Some w =>
      <["PermitWitnessTransferFrom" :=
          [param "permitted" "TokenPermissions"; param "spender" "address";
           param "nonce" "uint256"; param "deadline" "uint256";
           param "witness" (witnessTypeName w)]]>
        (witnessType w ∪ {["TokenPermissions" := TOKEN_PERMISSIONS]})
  | true, Some w =>
      <["PermitBatchWitnessTransferFrom" :=
          [param "permitted" "TokenPermissions[]"; param "spender" "address";
           param "nonce" "uint256"; param "deadline" "uint256";
           param "witness" (witnessTypeName w)]]>
        (<["TokenPermissions" := TOKEN_PERMISSIONS]> (witnessType w))
  end.

(** The permit object after a successful call. *)
Definition written {Permitted} (permit : PermitOf Permitted) (witness : option Witness)
  : PermitOf Permitted :=
  match witness with
  | Some w => assignWitness permit (let 'mkWitness value _ _ := w in value)
  | None => permit
  end.

(** The parts of the data of either kind. *)
Definition dataDomain (data : PermitData) : TypedDataDomain :=
  match data with
  | SingleData d => domain d
  | BatchData d => domain d
  end.

Definition dataTypes (data : PermitData) : TypedData :=
  match data with
  | SingleData d => types d
  | BatchData d => types d
  end.

Definition dataValues (data : PermitData) : Permit :=
  match data with
  | SingleData d => Single (values d)
  | BatchData d => Batch (values d)
  end.

(** The permitted amounts of a permit of either kind. *)
Definition amounts (permit : Permit) : list Z :=
  match permit with
  | Single p => [amount (permitted p)]
  | Batch p => map amount (permitted p)
  end.

Definition deadlineOf (permit : Permit) : Z :=
  match permit with
  | Single p => deadline p
  | Batch p => deadline p
  end.

Definition nonceOf (permit : Permit) : Z :=
  match permit with
  | Single p => nonce p
  | Batch p => nonce p
  end.

(** The range violation that the checks report for a permit, in the order
    deadline, nonce, amounts; [None] when every value is in range. *)
Definition rangeViolation (permit : Permit) : option string :=
  if MaxSigDeadline <? deadlineOf permit then Some "SIG_DEADLINE_OUT_OF_RANGE"
  else if MaxUnorderedNonce <? nonceOf permit then Some "NONCE_OUT_OF_RANGE"
  else if existsb (fun a => MaxSignatureTransferAmount <? a) (amounts permit)
       then Some "AMOUNT_OUT_OF_RANGE"
  else None.

(** The primary type for (single or batch, witness or none). *)
Definition primaryTypeFor (batch withWitness : bool) : string :=
  match batch, withWitness with
  | false, false => "PermitTransferFrom"
  | false, true => "PermitWitnessTransferFrom"
  | true, false => "PermitBatchTransferFrom"
  | true, true => "PermitBatchWitnessTransferFrom"
  end.

(** Two permit objects of the same kind that agree on every declared
    property: the permitted tokens and amounts, the spender, the nonce and the
    deadline. *)
Definition sameButWitness (a b : Permit) : Prop :=
  match a, b with
  | Single p, Single q =>
      permitted p = permitted q /\ spender p = spender q /\
      nonce p = nonce q /\ deadline p = deadline q
  | Batch p, Batch q =>
      permitted p = permitted q /\ spender p = spender q /\
      nonce p = nonce q /\ deadline p = deadline q
  | _, _ => False
  end.

(** The caller's permit object with the witness value written on it. *)
Definition withWitness (permit : Permit) (value : WitnessValue) : Permit :=
  match permit with
  | Single p => Single (assignWitness p value)
  | Batch p => Batch (assignWitness p value)
  end.

End Builder.

Arguments mkPermit {_ Permitted}.
Arguments permitted {_ Permitted}.
Arguments spender {_ Permitted}.
Arguments nonce {_ Permitted}.
Arguments deadline {_ Permitted}.
Arguments witnessProperty {_ Permitted}.
Arguments mkData {_ Permitted}.
Arguments domain {_ Permitted}.
Arguments types {_ Permitted}.
Arguments values {_ Permitted}.

(** The environment of the Permit2 contracts: every bound is the largest
    256-bit unsigned integer; witness values, domains and hashes are kept as
    text. *)
Definition sampleEnvironment : Environment :=
  {| WitnessValue := string;
     TypedDataDomain := string * Z;
     Hash := string;
     MaxSigDeadline := 2 ^ 256 - 1;
     MaxSignatureTransferAmount := 2 ^ 256 - 1;
     MaxUnorderedNonce := 2 ^ 256 - 1;
     permit2Domain := fun permit2Address chainId => (permit2Address, chainId) |}.

End Permit2.

(** ** Observations on the status manager, the submission and the permits *)

(** The ids of the route's steps, in the order of the route. *)
Definition routeIds (sm : StatusManager.t) : list string :=
  map Step.id (steps (StatusManager.route sm)).

(** Propagation goes through for a step: updates are suppressed, or the route
    has a step with the id of the step. *)
Definition canPropagate (sm : StatusManager.t) (step : Step.t) : bool :=
  negb (StatusManager.shouldUpdate sm)
  || match JS.find (fun routeStep => String.eqb (Step.id routeStep) (Step.id step))
                   (steps (StatusManager.route sm)) with
     | Some _ => true
     | None => false
     end.

(** The three statements that end every writing path of an operation: assign
    the step, propagate, return. *)
Definition writeAndPropagate {A} (s : Step.t) (a : A) : StatusManager.M A :=
  StatusManager.bind (StatusManager.putStep s)
    (fun _ => StatusManager.bind StatusManager.updateStepInRoute
                (fun _ => StatusManager.ret a)).

(** What an operation does to a step, whatever the manager: it writes a new
    execution and propagates, or it ends at once with [res]. *)
Definition behaves {A} (m : StatusManager.M A) (step : Step.t)
           (w : option (Execution.t * A)) (res : Result string A) : Prop :=
  forall sm : StatusManager.t,
    m sm step
    = match w with
      | Some (e, a) => writeAndPropagate (Step.set_execution (Some e) step) a sm step
      | None => (sm, step, res)
      end.

(** A call of any of the five operations of the manager. *)
Inductive Operation : Type :=
| InitExecutionObjectOp
| UpdateExecutionOp (status : Status) (receipt : option ReceiptEntries)
| FindOrCreateProcessOp (type : ProcessType) (status : option Status) (now : Z)
| UpdateProcessOp (type : ProcessType) (status : Status)
                  (params : option StatusManager.OptionalParameters) (now : Z)
| RemoveProcessOp (type : ProcessType).

(** The manager and the step after a call; what the call returned or threw
    is dropped. *)
Definition perform `{ProcessMessages} (op : Operation) (sm : StatusManager.t)
           (step : Step.t) : StatusManager.t * Step.t :=
  match op with
  | InitExecutionObjectOp =>
      let r := StatusManager.initExecutionObject sm step in
      (StatusManager.manager r, StatusManager.stepAfter r)
  | UpdateExecutionOp status receipt =>
      let r := StatusManager.updateExecution status receipt sm step in
      (StatusManager.manager r, StatusManager.stepAfter r)
  | FindOrCreateProcessOp type status now =>
      let r := StatusManager.findOrCreateProcess type status now sm step in
      (StatusManager.manager r, StatusManager.stepAfter r)
  | UpdateProcessOp type status params now =>
      let r := StatusManager.updateProcess type status params now sm step in
      (StatusManager.manager r, StatusManager.stepAfter r)
  | RemoveProcessOp type =>
      let r := StatusManager.removeProcess type sm step in
      (StatusManager.manager r, StatusManager.stepAfter r)
  end.

(** Calls made one after the other on the same step, going on after a call
    that threw. *)
Fixpoint performAll `{ProcessMessages} (ops : list Operation) (sm : StatusManager.t)
         (step : Step.t) : StatusManager.t * Step.t :=
  match ops with
  | [] => (sm, step)
  | op :: rest =>
      let '(sm', step') := perform op sm step in
      performAll rest sm' step'
  end.


(** The [witness] property of a permit object of either kind. *)
Definition witnessOf `{Permit2.Environment} (permit : Permit2.Permit)
  : option Permit2.WitnessValue :=
  match permit with
  | Permit2.Single p => Permit2.witnessProperty p
  | Permit2.Batch p => Permit2.witnessProperty p
  end.

(** ** Sample data for concrete runs *)

(** A message table for running the manager on concrete steps. *)
Definition sampleMessages : ProcessMessages :=
  {| getProcessMessage := fun type status =>
       match type, status with
       | SWAP, DONE => Some "Swap completed."
       | CROSS_CHAIN, DONE => Some "Bridge transaction confirmed."
       | _, FAILED => None
       | _, _ => Some "In progress."
       end |}.

(** A step of a one-step route, with the given execution. *)
Definition sampleStep (execution : option Execution.t) : Step.t :=
  Step.mk "step-1" "bridge" (Action.mk (Some "0xSender") "0xToken" 10)
          None None None None execution.

Definition sampleProcess (type : ProcessType) (status : Status) : Process.t :=
  Process.mk type status 5 None None None None None None None None None.

Definition sampleManager : StatusManager.t :=
  StatusManager.new (mkRoute [sampleStep None]).

(** An executor on which [setInteraction({ allowInteraction: false })] has
    been called. *)
Definition backgroundExecutor : BaseStepExecutor.t :=
  BaseStepExecutor.setInteraction
    (Some (InteractionSettings.mk (Some false) None None))
    (BaseStepExecutor.new sampleManager).

Definition sampleLocals : EVMStepExecutor.Locals :=
  EVMStepExecutor.mkLocals "0xSender" (EVMStepExecutor.mkChain 1 (Some "0xProxy"))
    false false false (EVMStepExecutor.mkNativePermit false) []
    (TransactionParameters.mk (Some "0xRouter") (Some "0xSender") (Some "0xdata")
                              None None None None None).

Definition sampleClock : EVMStepExecutor.Clock := EVMStepExecutor.mkClock 50 60 70.

(** A single-token permit in range, and a witness for it. *)
Definition samplePermit : @Permit2.PermitTransferFrom Permit2.sampleEnvironment :=
  @Permit2.mkPermit Permit2.sampleEnvironment _
    (Permit2.mkTokenPermissions "0xToken" 1000)
    "0xSpender" 7 1900000000 None.

Definition sampleWitness : @Permit2.Witness Permit2.sampleEnvironment :=
  @Permit2.mkWitness Permit2.sampleEnvironment "order-7" "Order"
    {["Order" := [Permit2.param "id" "uint256"]]}.

(** A stand-in for the typed-data hash: the primary type it was asked for. *)
Definition sampleHashTypedData
           (definition : @Permit2.TypedDataDefinition Permit2.sampleEnvironment)
  : Result Permit2.Exception string :=
  Ok (Permit2.primaryType definition).

(** The sample step with a swap process that has started, and with the three
    processes of a bridge transfer. *)
Definition sampleSwapStep : Step.t :=
  sampleStep (Some (Execution.mk PENDING [sampleProcess SWAP STARTED] noReceipt)).

Definition sampleBridgeStep : Step.t :=
  sampleStep (Some (Execution.mk PENDING
                      [sampleProcess TOKEN_ALLOWANCE DONE; sampleProcess SWAP PENDING;
                       sampleProcess RECEIVING_CHAIN PENDING] noReceipt)).

(** A wallet and a relayer that accept every request. *)
Definition sampleAnswer (X : Type) (request : EVMStepExecutor.Request X) : X :=
  match request in EVMStepExecutor.Request X return X with
  | EVMStepExecutor.SendCalls _ _ => Ok "0xbatch"
  | EVMStepExecutor.SignPermitMessage _ =>
      Ok (EVMStepExecutor.mkPermitSignature "0xsig" "0xsigned")
  | EVMStepExecutor.EstimateGas _ _ _ _ => Ok 21000
  | EVMStepExecutor.RelayTransaction _ => Ok "task-1"
  | EVMStepExecutor.SendTransaction _ _ => Ok "0xhash"
  | EVMStepExecutor.ParseEVMErrors _ _ _ => EVMStepExecutor.mkSDKError "1000" "unknown"
  end.


(** ** Properties of the status manager *)

Section StatusManagerFacts.
Context `{ProcessMessages}.
Import StatusManager.

(** Propagation never writes to the [step] object it is handed. *)
Lemma updateStepInRoute_step (sm : StatusManager.t) (step : Step.t) :
  stepAfter (updateStepInRoute sm step) = step.
Proof.
  unfold updateStepInRoute, stepAfter.
  destruct (negb (shouldUpdate sm)); [reflexivity|].
  destruct (_ =? -1); [reflexivity|].
  destruct (steps (route sm) !! _); reflexivity.
Qed.

(** With updates suppressed propagation returns the step and calls no hook. *)
Lemma updateStepInRoute_suppressed (sm : StatusManager.t) (step : Step.t) :
  shouldUpdate sm = false -> updateStepInRoute sm step = (sm, step, Ok step).
Proof. intros Hs. unfold updateStepInRoute. rewrite Hs. reflexivity. Qed.

Lemma findIndexFrom_range {A} (f : A -> bool) (l : list A) (i : Z) :
  JS.findIndexFrom f i l = -1 \/
  (i <= JS.findIndexFrom f i l < i + Z.of_nat (length l)).
Proof.
  revert i. induction l as [|x rest IH]; intros i; cbn [JS.findIndexFrom].
  - left; reflexivity.
  - destruct (f x).
    + right. cbn [length]. lia.
    + destruct (IH (i + 1)) as [->|Hr]; [left; reflexivity|].
      right. cbn [length]. lia.
Qed.

(** A non-negative [findIndex] result is an index of the array. *)
Lemma findIndex_lookup {A} (f : A -> bool) (l : list A) :
  JS.findIndex f l <> -1 -> is_Some (l !! Z.to_nat (JS.findIndex f l)).
Proof.
  intros Hne. unfold JS.findIndex in *.
  destruct (findIndexFrom_range f l 0) as [Hm|Hr]; [contradiction|].
  apply lookup_lt_is_Some. lia.
Qed.

(** [findIndex] yields [-1] exactly when [find] finds nothing. *)
Lemma findIndex_none_iff {A} (f : A -> bool) (l : list A) :
  JS.findIndex f l = -1 <-> JS.find f l = None.
Proof.
  unfold JS.findIndex, JS.find.
  assert (Hgen : forall i, 0 <= i ->
             (JS.findIndexFrom f i l = -1 <-> List.find f l = None)).
  { induction l as [|x rest IH]; intros i Hi; cbn.
    - tauto.
    - destruct (f x).
      + split; [lia | discriminate].
      + apply IH. lia. }
  apply Hgen. lia.
Qed.

(** Propagation either returns the route's step or fails to find it. *)
Lemma updateStepInRoute_outcome (sm : StatusManager.t) (step : Step.t) :
  (exists updated, outcome (updateStepInRoute sm step) = Ok updated) \/
  outcome (updateStepInRoute sm step) = Throw "Couldn't find a step to update.".
Proof.
  unfold updateStepInRoute, outcome.
  destruct (negb (shouldUpdate sm)); [left; eexists; reflexivity|].
  destruct (Z.eqb_spec (JS.findIndex (fun routeStep =>
              String.eqb (Step.id routeStep) (Step.id step)) (steps (route sm))) (-1))
    as [Heq|Hne]; [right; reflexivity|].
  destruct (findIndex_lookup _ _ Hne) as [target ->].
  left; eexists; reflexivity.
Qed.

(** What a statement sequence [putStep s ;;; updateStepInRoute ;;; ret a]
    leaves behind: the step is [s], whatever propagation did. *)
Lemma write_propagate_return {A} (s : Step.t) (a : A) sm step :
  let r := bind (putStep s) (fun _ => bind updateStepInRoute (fun _ => ret a)) sm step in
  stepAfter r = s /\
  (outcome r = Ok a \/ outcome r = Throw "Couldn't find a step to update.").
Proof.
  cbn. unfold bind, putStep, ret.
  pose proof (updateStepInRoute_step sm s) as Hs.
  pose proof (updateStepInRoute_outcome sm s) as Ho.
  destruct (updateStepInRoute sm s) as [[sm' st'] [u|msg]]; cbn in *; subst.
  - auto.
  - destruct Ho as [[u Hu]|Hu]; [discriminate|]. injection Hu as ->. auto.
Qed.

(** Proofs about an operation first run its body, with [run], up to the
    statements that write the step, propagate and return, and then appeal to
    the lemma above. *)
Ltac reach_write r run :=
  let Hr := fresh "Hr" in
  eassert (Hr : r = _);
  [ subst r; run; reflexivity
  | clearbody r; subst r; apply write_propagate_return ].

(** *** Arrays of processes *)

(** The object that [find] returns sits at one index of the array, and
    mutating it in place rewrites that index only. *)
Lemma mutateFound_insert {A} (f : A -> bool) (g : A -> A) (l : list A) (x : A) :
  JS.find f l = Some x ->
  exists i : nat,
    l !! i = Some x /\ f x = true /\
    JS.mutateFound f g l = <[i := g x]> l.
Proof.
  unfold JS.find. induction l as [|y rest IH]; cbn; [discriminate|].
  destruct (f y) eqn:Hy.
  - intros [= ->]. exists 0%nat. auto.
  - intros Hf. destruct (IH Hf) as (i & Hi & Hx & Hm).
    exists (S i). cbn. rewrite Hm. auto.
Qed.

Lemma mutateFound_length {A} (f : A -> bool) (g : A -> A) (l : list A) :
  length (JS.mutateFound f g l) = length l.
Proof.
  induction l as [|y rest IH]; cbn; [reflexivity|].
  destruct (f y); cbn; congruence.
Qed.

Lemma mutateFound_In {A} (f : A -> bool) (g : A -> A) (l : list A) (x : A) :
  JS.find f l = Some x -> In (g x) (JS.mutateFound f g l).
Proof.
  unfold JS.find. induction l as [|y rest IH]; cbn; [discriminate|].
  destruct (f y).
  - intros [= ->]. left; reflexivity.
  - intros Hf. right. auto.
Qed.

Lemma find_none_ofType type (l : list Process.t) :
  JS.find (fun p => type_eqb (Process.type p) type) l = None -> ofType type l = [].
Proof.
  unfold JS.find, ofType, JS.filter. induction l as [|y rest IH]; cbn; [reflexivity|].
  destruct (type_eqb (Process.type y) type); [discriminate | exact IH].
Qed.

Lemma ofType_mutateFound type (f : Process.t -> bool) (g : Process.t -> Process.t)
      (l : list Process.t) :
  (forall p, Process.type (g p) = Process.type p) ->
  length (ofType type (JS.mutateFound f g l)) = length (ofType type l).
Proof.
  intros Hg. unfold ofType, JS.filter.
  induction l as [|y rest IH]; cbn; [reflexivity|].
  destruct (f y); cbn.
  - rewrite Hg. destruct (type_eqb (Process.type y) type); reflexivity.
  - destruct (type_eqb (Process.type y) type); cbn; congruence.
Qed.

Lemma ofType_app type (l1 l2 : list Process.t) :
  ofType type (l1 ++ l2) = ofType type l1 ++ ofType type l2.
Proof. unfold ofType, JS.filter. apply List.filter_app. Qed.

(** Splitting an array by a test and gluing the two parts keeps the number
    of processes of each type. *)
Lemma ofType_sortProcesses type (l : list Process.t) :
  length (ofType type (sortProcesses l)) = length (ofType type l).
Proof.
  unfold sortProcesses. rewrite ofType_app, length_app.
  unfold ofType, JS.filter.
  induction l as [|y rest IH]; cbn; [reflexivity|].
  destruct (isDone y); cbn; destruct (type_eqb (Process.type y) type); cbn; lia.
Qed.

Lemma In_sortProcesses (l : list Process.t) (p : Process.t) :
  In p (sortProcesses l) <-> In p l.
Proof.
  unfold sortProcesses, JS.filter. rewrite in_app_iff, !filter_In.
  destruct (isDone p); cbn; intuition congruence.
Qed.

(** With at most one process per type, [find] by type returns the process of
    that type that the array holds. *)
Lemma find_atMostOne type (l : list Process.t) (p : Process.t) :
  (length (ofType type l) <= 1)%nat ->
  In p l -> Process.type p = type ->
  JS.find (fun q => type_eqb (Process.type q) type) l = Some p.
Proof.
  unfold ofType, JS.filter, JS.find.
  induction l as [|y rest IH]; cbn; [tauto|].
  intros Hlen Hin Hty.
  destruct (type_eqb (Process.type y) type) eqn:Hy; cbn in Hlen.
  - destruct Hin as [->|Hin]; [reflexivity|].
    assert (Hp : In p (List.filter (fun q => type_eqb (Process.type q) type) rest)).
    { apply filter_In. split; [assumption|].
      unfold type_eqb. apply bool_decide_eq_true_2. assumption. }
    destruct (List.filter _ rest); [contradiction | cbn in Hlen; lia].
  - destruct Hin as [->|Hin].
    + unfold type_eqb in Hy. apply bool_decide_eq_false_1 in Hy. contradiction.
    + auto.
Qed.

Lemma filter_again {A} (f : A -> bool) (l : list A) :
  List.filter f (List.filter f l) = List.filter f l.
Proof.
  induction l as [|y rest IH]; cbn; [reflexivity|].
  destruct (f y) eqn:Hy; cbn; [rewrite Hy, IH|]; auto.
Qed.

Lemma filter_apart {A} (f g : A -> bool) (l : list A) :
  (forall x, f x = true -> g x = false) ->
  List.filter g (List.filter f l) = [].
Proof.
  intros Hfg. induction l as [|y rest IH]; cbn; [reflexivity|].
  destruct (f y) eqn:Hy; cbn; [rewrite (Hfg y Hy)|]; auto.
Qed.

Lemma sortProcesses_doneFirst (l : list Process.t) : doneFirst (sortProcesses l).
Proof.
  exists (length (JS.filter isDone l)). unfold sortProcesses.
  rewrite take_app_length, drop_app_length.
  split; apply Forall_forall; intros p Hp;
    apply list_elem_of_In, filter_In in Hp; destruct Hp as [_ Hp];
    unfold isDone, status_eqb in Hp.
  - apply bool_decide_eq_true_1 in Hp. assumption.
  - apply negb_true_iff, bool_decide_eq_false_1 in Hp. assumption.
Qed.

(** *** [updateProcess] *)

Lemma updateProcess_no_execution type status params now sm step :
  Step.execution step = None ->
  updateProcess type status params now sm step
  = (sm, step, Throw "Can't update an empty step execution.").
Proof.
  intros He. unfold updateProcess, bind, getStep. rewrite He. reflexivity.
Qed.

Lemma updateProcess_no_process type status params now sm step e :
  Step.execution step = Some e ->
  JS.find (fun p => type_eqb (Process.type p) type) (Execution.process e) = None ->
  updateProcess type status params now sm step
  = (sm, step, Throw "Can't find a process for the given type.").
Proof.
  intros He Hf. unfold updateProcess, bind, getStep. rewrite He, Hf. reflexivity.
Qed.

(** The writes of a call that finds its process. *)
Lemma updateProcess_found type status params now sm step e currentProcess :
  Step.execution step = Some e ->
  JS.find (fun p => type_eqb (Process.type p) type) (Execution.process e)
  = Some currentProcess ->
  let r := updateProcess type status params now sm step in
  stepAfter r
  = Step.set_execution
      (Some (Execution.mk
               (snd (statusDefaults status now currentProcess (Execution.status e)))
               (sortProcesses
                  (JS.mutateFound (fun p => type_eqb (Process.type p) type)
                                  (updatedProcess type status params now)
                                  (Execution.process e)))
               (Execution.receipt e))) step /\
  (outcome r = Ok (updatedProcess type status params now currentProcess) \/
   outcome r = Throw "Couldn't find a step to update.").
Proof.
  intros He Hf r.
  reach_write r ltac:(unfold updateProcess; unfold bind at 1, getStep; rewrite He, Hf).
Qed.

(** The entries of [params] are written over what the process holds. *)
Lemma applyParams_fields (ps : OptionalParameters) (p : Process.t) :
  let p' := applyParams ps p in
  Process.type p' = Process.type p /\
  Process.status p' = Process.status p /\
  Process.startedAt p' = Process.startedAt p /\
  Process.message p' = Process.message p /\
  Process.doneAt p' = JS.overwrite (Process.doneAt p) (doneAt ps) /\
  Process.failedAt p' = JS.overwrite (Process.failedAt p) (failedAt ps) /\
  Process.txHash p' = JS.overwrite (Process.txHash p) (txHash ps) /\
  Process.txLink p' = JS.overwrite (Process.txLink p) (txLink ps) /\
  Process.error p' = JS.overwrite (Process.error p) (error ps) /\
  Process.substatus p' = JS.overwrite (Process.substatus p) (substatus ps) /\
  Process.substatusMessage p'
  = JS.overwrite (Process.substatusMessage p) (substatusMessage ps) /\
  Process.multisigTxHash p'
  = JS.overwrite (Process.multisigTxHash p) (multisigTxHash ps).
Proof.
  destruct ps as [[d|] [f|] [h|] [k|] [er|] [su|] [sm|] [mu|]]; cbn;
    repeat split; reflexivity.
Qed.

Lemma updatedProcess_type type status params now (p : Process.t) :
  Process.type (updatedProcess type status params now p) = Process.type p.
Proof.
  unfold updatedProcess. destruct params as [ps|].
  - destruct (applyParams_fields ps
                (Process.set_message (getProcessMessage type status)
                   (Process.set_status status
                      (fst (statusDefaults status now p NOT_STARTED))))) as (-> & _).
    destruct status; reflexivity.
  - destruct status; reflexivity.
Qed.

Lemma updatedProcess_status type status params now (p : Process.t) :
  Process.status (updatedProcess type status params now p) = status.
Proof.
  unfold updatedProcess. destruct params as [ps|].
  - destruct (applyParams_fields ps
                (Process.set_message (getProcessMessage type status)
                   (Process.set_status status
                      (fst (statusDefaults status now p NOT_STARTED))))) as (_ & -> & _).
    reflexivity.
  - reflexivity.
Qed.

(** *** [findOrCreateProcess] *)

Lemma findOrCreateProcess_no_execution type status now sm step :
  Step.execution step = None ->
  findOrCreateProcess type status now sm step
  = (sm, step, Throw "Execution hasn't been initialized.").
Proof.
  intros He. unfold findOrCreateProcess, bind, getStep. rewrite He. reflexivity.
Qed.

(** An existing process is returned as it is when no status is passed, or
    when the status passed is the one it has. *)
Lemma findOrCreateProcess_found_same type status now sm step e process :
  Step.execution step = Some e ->
  JS.find (fun p => type_eqb (Process.type p) type) (Execution.process e) = Some process ->
  status = None \/ status = Some (Process.status process) ->
  findOrCreateProcess type status now sm step = (sm, step, Ok process).
Proof.
  intros He Hf Hs. unfold findOrCreateProcess, bind, getStep. rewrite He, Hf.
  destruct Hs as [->| ->]; [reflexivity|].
  unfold status_eqb. rewrite bool_decide_eq_true_2 by reflexivity. reflexivity.
Qed.

Lemma findOrCreateProcess_found_other type s now sm step e process :
  Step.execution step = Some e ->
  JS.find (fun p => type_eqb (Process.type p) type) (Execution.process e) = Some process ->
  Process.status process <> s ->
  let r := findOrCreateProcess type (Some s) now sm step in
  stepAfter r
  = Step.set_execution
      (Some (Execution.set_process
               (JS.mutateFound (fun p => type_eqb (Process.type p) type)
                               (Process.set_status s) (Execution.process e)) e)) step /\
  (outcome r = Ok (Process.set_status s process) \/
   outcome r = Throw "Couldn't find a step to update.").
Proof.
  intros He Hf Hs r.
  reach_write r ltac:(unfold findOrCreateProcess; unfold bind at 1, getStep;
                      rewrite He, Hf; unfold status_eqb;
                      rewrite bool_decide_eq_false_2 by assumption; cbn [negb]).
Qed.

Lemma findOrCreateProcess_created type status now sm step e :
  Step.execution step = Some e ->
  JS.find (fun p => type_eqb (Process.type p) type) (Execution.process e) = None ->
  let status' := default STARTED status in
  let newProcess :=
    Process.mk type status' now (getProcessMessage type status')
               None None None None None None None None in
  let r := findOrCreateProcess type status now sm step in
  stepAfter r
  = Step.set_execution
      (Some (Execution.set_process (Execution.process e ++ [newProcess]) e)) step /\
  (outcome r = Ok newProcess \/
   outcome r = Throw "Couldn't find a step to update.").
Proof.
  intros He Hf status' newProcess r.
  reach_write r ltac:(unfold findOrCreateProcess; unfold bind at 1, getStep;
                      rewrite He, Hf).
Qed.

(** C6. On a step whose execution holds a process of the given type,
    [updateProcess(step, type, status, params)] writes the status and its
    message on that process; CANCELLED, DONE and FAILED stamp [doneAt];
    FAILED, PENDING and ACTION_REQUIRED are copied onto the execution status,
    which other statuses leave alone; the entries of [params] are written
    last, each key that [params] has replacing what the process holds by its
    value, [undefined] included, so that a [doneAt] passed by the caller
    replaces the stamp; a key that [params] lacks leaves the field as the
    earlier writes left it. *)
Theorem updateProcess_status_effects
        (sm : StatusManager.t) (step : Step.t) (e : Execution.t)
        (currentProcess : Process.t) (type : ProcessType) (status : Status)
        (params : option OptionalParameters) (now : Z) :
  Step.execution step = Some e ->
  JS.find (fun p => type_eqb (Process.type p) type) (Execution.process e)
  = Some currentProcess ->
  let r := updateProcess type status params now sm step in
  let ps := default noParams params in
  exists p' : Process.t,
    In p' (processes (stepAfter r)) /\
    (outcome r = Ok p' \/ outcome r = Throw "Couldn't find a step to update.") /\
    Process.type p' = type /\
    Process.status p' = status /\
    Process.message p' = getProcessMessage type status /\
    Process.startedAt p' = Process.startedAt currentProcess /\
    Process.doneAt p'
    = JS.overwrite
        (match status with
         | CANCELLED | DONE | FAILED => Some now
         | _ => Process.doneAt currentProcess
         end) (doneAt ps) /\
    Process.failedAt p' = JS.overwrite (Process.failedAt currentProcess) (failedAt ps) /\
    Process.txHash p' = JS.overwrite (Process.txHash currentProcess) (txHash ps) /\
    Process.txLink p' = JS.overwrite (Process.txLink currentProcess) (txLink ps) /\
    Process.error p' = JS.overwrite (Process.error currentProcess) (error ps) /\
    Process.substatus p'
    = JS.overwrite (Process.substatus currentProcess) (substatus ps) /\
    Process.substatusMessage p'
    = JS.overwrite (Process.substatusMessage currentProcess) (substatusMessage ps) /\
    Process.multisigTxHash p'
    = JS.overwrite (Process.multisigTxHash currentProcess) (multisigTxHash ps) /\
    Execution.status <$> Step.execution (stepAfter r)
    = Some (match status with
            | FAILED => FAILED
            | PENDING => PENDING
            | ACTION_REQUIRED => ACTION_REQUIRED
            | _ => Execution.status e
            end).
Proof.
  intros He Hf r ps.
  destruct (updateProcess_found type status params now sm step e currentProcess He Hf)
    as [Hstep Hout].
  fold r in Hstep, Hout.
  exists (updatedProcess type status params now currentProcess).
  split.
  { rewrite Hstep. unfold processes. cbn.
    apply In_sortProcesses, mutateFound_In. exact Hf. }
  split; [exact Hout|].
  split.
  { rewrite updatedProcess_type.
    destruct (mutateFound_insert _ id _ _ Hf) as (i & _ & Hty & _).
    unfold type_eqb in Hty. apply bool_decide_eq_true_1 in Hty. exact Hty. }
  split; [apply updatedProcess_status|].
  assert (Hparams : updatedProcess type status params now currentProcess
                    = applyParams ps
                        (Process.set_message (getProcessMessage type status)
                           (Process.set_status status
                              (fst (statusDefaults status now currentProcess NOT_STARTED))))).
  { unfold updatedProcess, ps. destruct params; reflexivity. }
  rewrite Hparams.
  destruct (applyParams_fields ps
              (Process.set_message (getProcessMessage type status)
                 (Process.set_status status
                    (fst (statusDefaults status now currentProcess NOT_STARTED)))))
    as (_ & _ & -> & -> & -> & -> & -> & -> & -> & -> & -> & ->).
  rewrite Hstep. cbn.
  repeat split; destruct status; reflexivity.
Qed.

(** The first element that satisfies the callback is the one that [find]
    returns, and mutating it in place rewrites its index only. *)
Lemma find_first {A} (f : A -> bool) (l : list A) (i : nat) (x : A) :
  l !! i = Some x ->
  f x = true ->
  (forall (j : nat) (y : A), (j < i)%nat -> l !! j = Some y -> f y = false) ->
  JS.find f l = Some x /\
  forall g : A -> A, JS.mutateFound f g l = <[i := g x]> l.
Proof.
  unfold JS.find. revert i. induction l as [|y rest IH]; intros i Hi Hx Hbefore.
  - discriminate.
  - destruct i as [|i]; cbn in Hi.
    + injection Hi as ->. cbn. rewrite Hx. auto.
    + assert (Hy : f y = false) by (apply (Hbefore 0%nat); [lia | reflexivity]).
      destruct (IH i Hi Hx) as [Hfind Hmut].
      { intros j z Hj Hz. apply (Hbefore (S j)); [lia | exact Hz]. }
      cbn. rewrite Hy. split; [exact Hfind|].
      intros g. rewrite Hmut. reflexivity.
Qed.

Lemma find_first_of_type type (l : list Process.t) (i : nat) (p : Process.t) :
  l !! i = Some p ->
  Process.type p = type ->
  (forall (j : nat) (q : Process.t),
      (j < i)%nat -> l !! j = Some q -> Process.type q <> type) ->
  JS.find (fun q => type_eqb (Process.type q) type) l = Some p /\
  forall g : Process.t -> Process.t,
    JS.mutateFound (fun q => type_eqb (Process.type q) type) g l = <[i := g p]> l.
Proof.
  intros Hi Hty Hbefore. apply find_first; [exact Hi | |].
  - unfold type_eqb. apply bool_decide_eq_true_2. exact Hty.
  - intros j q Hj Hq. unfold type_eqb. apply bool_decide_eq_false_2.
    exact (Hbefore j q Hj Hq).
Qed.

Lemma filter_sublist {A} (f : A -> bool) (l : list A) : sublist (List.filter f l) l.
Proof.
  induction l as [|y rest IH]; cbn; [constructor|].
  destruct (f y); constructor; exact IH.
Qed.

Lemma filter_split_Permutation {A} (f : A -> bool) (l : list A) :
  Permutation l (List.filter f l ++ List.filter (fun x => negb (f x)) l).
Proof.
  induction l as [|y rest IH]; cbn; [constructor|].
  destruct (f y); cbn.
  - constructor. exact IH.
  - etransitivity; [constructor; exact IH|]. apply Permutation_middle.
Qed.

(** The reordering of lines 201-208 is a stable partition. *)
Lemma sortProcesses_partitioned (l : list Process.t) :
  partitionedDoneFirst l (sortProcesses l).
Proof.
  exists (JS.filter isDone l), (JS.filter (fun p => negb (isDone p)) l).
  unfold sortProcesses, JS.filter.
  split; [reflexivity|].
  split; [|split; [|split; [|split]]].
  - apply Forall_forall. intros p Hp.
    apply list_elem_of_In, filter_In in Hp. destruct Hp as [_ Hp].
    unfold isDone, status_eqb in Hp. apply bool_decide_eq_true_1 in Hp. exact Hp.
  - apply Forall_forall. intros p Hp.
    apply list_elem_of_In, filter_In in Hp. destruct Hp as [_ Hp].
    unfold isDone, status_eqb in Hp.
    apply negb_true_iff, bool_decide_eq_false_1 in Hp. exact Hp.
  - apply filter_sublist.
  - apply filter_sublist.
  - apply filter_split_Permutation.
Qed.

(** C7, as the code has it.  A call of [updateProcess] that finds a process
    of the given type (the first one of that type, at index [i]) leaves the
    array as follows: take the array before the call with the process found
    rewritten in place; the array after the call holds the same processes,
    each as often, those with status DONE first and the others after them,
    each of the two groups in the order it had; so the DONE processes form a
    prefix. *)
Theorem updateProcess_partitions_done_first
        (sm : StatusManager.t) (step : Step.t) (e : Execution.t)
        (currentProcess : Process.t) (type : ProcessType) (status : Status)
        (params : option OptionalParameters) (now : Z) (i : nat) :
  Step.execution step = Some e ->
  Execution.process e !! i = Some currentProcess ->
  Process.type currentProcess = type ->
  (forall (j : nat) (q : Process.t),
      (j < i)%nat -> Execution.process e !! j = Some q -> Process.type q <> type) ->
  let before := Execution.process e in
  let after := processes (stepAfter (updateProcess type status params now sm step)) in
  exists written : list Process.t,
    written = <[i := updatedProcess type status params now currentProcess]> before /\
    Process.type (updatedProcess type status params now currentProcess) = type /\
    Process.status (updatedProcess type status params now currentProcess) = status /\
    length after = length before /\
    partitionedDoneFirst written after /\
    doneFirst after.
Proof.
  intros He Hi Hty Hfirst before after.
  destruct (find_first_of_type type _ i currentProcess Hi Hty Hfirst) as [Hf Hm].
  destruct (updateProcess_found type status params now sm step e currentProcess He Hf)
    as [Hstep _].
  assert (Hafter : after
                   = sortProcesses
                       (<[i := updatedProcess type status params now currentProcess]> before)).
  { subst after. rewrite Hstep. unfold processes. cbn. rewrite Hm. reflexivity. }
  exists (<[i := updatedProcess type status params now currentProcess]> before).
  split; [reflexivity|].
  split; [rewrite updatedProcess_type; exact Hty|].
  split; [apply updatedProcess_status|].
  split.
  { rewrite Hafter.
    destruct (sortProcesses_partitioned
                (<[i := updatedProcess type status params now currentProcess]> before))
      as (done & rest & _ & _ & _ & _ & _ & Hperm).
    rewrite <- (Permutation_length Hperm). apply length_insert. }
  split; [rewrite Hafter; apply sortProcesses_partitioned|].
  rewrite Hafter. apply sortProcesses_doneFirst.
Qed.

(** *** [initExecutionObject] *)

(** The writes of the initializer on an execution that has failed. *)
Lemma initExecutionObject_failed (sm : StatusManager.t) (step : Step.t) (e : Execution.t) :
  Step.execution step = Some e ->
  Execution.status e = FAILED ->
  let r := initExecutionObject sm step in
  stepAfter r = Step.set_execution (Some (Execution.set_status PENDING e)) step /\
  (outcome r = Ok (Execution.set_status PENDING e) \/
   outcome r = Throw "Couldn't find a step to update.").
Proof.
  intros Hexec Hfailed r.
  reach_write r ltac:(unfold initExecutionObject; unfold bind at 1, getStep;
                      rewrite Hexec; unfold bind at 1, ret at 1; rewrite Hfailed;
                      cbn [status_eqb bool_decide decide_rel]).
Qed.

(** C5. For a step whose execution has status FAILED, the initializer sets
    the execution status to PENDING and leaves the process list (the same
    processes, in the same order, with the same fields) and every other
    field of the step and of the execution as they were; it returns that
    execution unless propagation cannot find the step in the route. *)
Theorem initExecutionObject_resumes_failed
        (sm : StatusManager.t) (step : Step.t) (e : Execution.t) :
  Step.execution step = Some e ->
  Execution.status e = FAILED ->
  let r := initExecutionObject sm step in
  stepAfter r = Step.set_execution (Some (Execution.set_status PENDING e)) step /\
  Execution.status <$> Step.execution (stepAfter r) = Some PENDING /\
  processes (stepAfter r) = Execution.process e /\
  (outcome r = Ok (Execution.set_status PENDING e) \/
   outcome r = Throw "Couldn't find a step to update.").
Proof.
  intros Hexec Hfailed r.
  destruct (initExecutionObject_failed sm step e Hexec Hfailed) as [Hstep Hout].
  fold r in Hstep, Hout. rewrite Hstep. unfold processes. cbn. auto.
Qed.

(** *** Terminal statuses *)

Lemma find_found_type type (l : list Process.t) (p : Process.t) :
  JS.find (fun q => type_eqb (Process.type q) type) l = Some p ->
  In p l /\ Process.type p = type.
Proof.
  intros Hf. unfold JS.find in Hf. apply find_some in Hf. destruct Hf as [Hin Hty].
  unfold type_eqb in Hty. apply bool_decide_eq_true_1 in Hty. auto.
Qed.

(** C2, as the code has it.  Neither operation looks at the status a process
    has before writing the new one: on a step with one process of the given
    type, [updateProcess] leaves that process with the status it was passed,
    and so does [findOrCreateProcess] when it is passed a status, whether the
    status before was DONE, FAILED, CANCELLED or any other; only
    [findOrCreateProcess] without a status keeps the status. *)
Theorem status_calls_overwrite
        (sm : StatusManager.t) (step : Step.t) (e : Execution.t)
        (currentProcess : Process.t) (type : ProcessType) (status : Status)
        (params : option OptionalParameters) (now : Z) :
  Step.execution step = Some e ->
  atMostOnePerType (Execution.process e) ->
  JS.find (fun p => type_eqb (Process.type p) type) (Execution.process e)
  = Some currentProcess ->
  let statusAfter (r : StatusManager.t * Step.t * Result string Process.t) :=
    Process.status
      <$> JS.find (fun p => type_eqb (Process.type p) type) (processes (stepAfter r)) in
  statusAfter (updateProcess type status params now sm step) = Some status /\
  statusAfter (findOrCreateProcess type (Some status) now sm step) = Some status /\
  statusAfter (findOrCreateProcess type None now sm step)
  = Some (Process.status currentProcess).
Proof.
  intros He Hone Hf statusAfter. subst statusAfter. cbv beta.
  destruct (find_found_type _ _ _ Hf) as [Hin Hty].
  split; [|split].
  - destruct (updateProcess_found type status params now sm step e currentProcess He Hf)
      as [-> _].
    unfold processes. cbn.
    rewrite (find_atMostOne type _ (updatedProcess type status params now currentProcess)).
    + cbn. rewrite updatedProcess_status. reflexivity.
    + rewrite ofType_sortProcesses, ofType_mutateFound; [apply Hone|].
      intros p. apply updatedProcess_type.
    + apply In_sortProcesses, mutateFound_In. exact Hf.
    + rewrite updatedProcess_type. exact Hty.
  - destruct (decide (Process.status currentProcess = status)) as [Heq|Hne].
    + rewrite (findOrCreateProcess_found_same type (Some status) now sm step e
                 currentProcess He Hf) by (right; congruence).
      cbn. unfold processes. rewrite He, Hf. cbn. congruence.
    + destruct (findOrCreateProcess_found_other type status now sm step e
                  currentProcess He Hf Hne) as [-> _].
      unfold processes. cbn.
      rewrite (find_atMostOne type _ (Process.set_status status currentProcess)).
      * reflexivity.
      * rewrite ofType_mutateFound; [apply Hone|]. intros p; reflexivity.
      * apply mutateFound_In. exact Hf.
      * exact Hty.
  - rewrite (findOrCreateProcess_found_same type None now sm step e
               currentProcess He Hf) by (left; reflexivity).
    cbn. unfold processes. rewrite He, Hf. reflexivity.
Qed.

(** *** One process per type *)

Lemma initExecutionObject_stepAfter (sm : StatusManager.t) (step : Step.t) :
  stepAfter (initExecutionObject sm step)
  = match Step.execution step with
    | None =>
        Step.set_execution (Some (Execution.set_status PENDING emptyExecution)) step
    | Some e =>
        if status_eqb (Execution.status e) FAILED
        then Step.set_execution (Some (Execution.set_status PENDING e)) step
        else step
    end.
Proof.
  destruct (Step.execution step) as [e|] eqn:He.
  - destruct (status_eqb (Execution.status e) FAILED) eqn:Hs.
    + unfold status_eqb in Hs. apply bool_decide_eq_true_1 in Hs.
      destruct (initExecutionObject_failed sm step e He Hs) as [Hstep _].
      exact Hstep.
    + unfold initExecutionObject, bind, getStep, ret. rewrite He, Hs. reflexivity.
  - unfold initExecutionObject, bind, getStep, putStep, ret. rewrite He. cbn.
    pose proof (updateStepInRoute_step sm
                  (Step.set_execution (Some (Execution.set_status PENDING emptyExecution))
                                      step)) as Hu.
    destruct (updateStepInRoute sm _) as [[sm' st'] [u|msg]]; cbn in Hu; subst;
      reflexivity.
Qed.

Lemma initExecutionObject_processes (sm : StatusManager.t) (step : Step.t) :
  processes (stepAfter (initExecutionObject sm step)) = processes step.
Proof.
  rewrite initExecutionObject_stepAfter.
  destruct (Step.execution step) as [e|] eqn:He.
  - destruct (status_eqb (Execution.status e) FAILED); [|reflexivity].
    unfold processes. rewrite He. reflexivity.
  - unfold processes. rewrite He. reflexivity.
Qed.

Lemma call_keeps_atMostOne (c : Call) (sm : StatusManager.t) (step : Step.t) :
  atMostOnePerType (processes step) ->
  atMostOnePerType (processes (stepAfter (call c sm step))).
Proof.
  intros Hone.
  destruct (Step.execution step) as [e|] eqn:He.
  2:{ destruct c as [type status now | type status params now]; cbn [call].
      - rewrite findOrCreateProcess_no_execution by assumption. exact Hone.
      - rewrite updateProcess_no_execution by assumption. exact Hone. }
  assert (Hp : processes step = Execution.process e) by (unfold processes; rewrite He; reflexivity).
  rewrite Hp in Hone.
  destruct c as [type status now | type status params now]; cbn [call];
    destruct (JS.find (fun p => type_eqb (Process.type p) type) (Execution.process e))
      as [found|] eqn:Hf.
  - destruct status as [s|].
    + destruct (decide (Process.status found = s)) as [Heq|Hne].
      * rewrite (findOrCreateProcess_found_same type (Some s) now sm step e found He Hf)
          by (right; congruence).
        cbn. rewrite Hp. exact Hone.
      * destruct (findOrCreateProcess_found_other type s now sm step e found He Hf Hne)
          as [-> _].
        unfold processes. cbn. intros ty.
        rewrite ofType_mutateFound; [apply Hone|]. intros p; reflexivity.
    + rewrite (findOrCreateProcess_found_same type None now sm step e found He Hf)
        by (left; reflexivity).
      cbn. rewrite Hp. exact Hone.
  - destruct (findOrCreateProcess_created type status now sm step e He Hf) as [-> _].
    unfold processes. cbn. intros ty.
    rewrite ofType_app, length_app.
    destruct (decide (ty = type)) as [->|Hne].
    + rewrite (find_none_ofType type _ Hf). cbn.
      unfold type_eqb. rewrite bool_decide_eq_true_2 by reflexivity. cbn. lia.
    + specialize (Hone ty). cbn.
      unfold type_eqb. rewrite bool_decide_eq_false_2 by congruence. cbn. lia.
  - destruct (updateProcess_found type status params now sm step e found He Hf)
      as [-> _].
    unfold processes. cbn. intros ty.
    rewrite ofType_sortProcesses, ofType_mutateFound; [apply Hone|].
    intros p. apply updatedProcess_type.
  - rewrite (updateProcess_no_process type status params now sm step e He Hf).
    cbn. rewrite Hp. exact Hone.
Qed.

(** C9. On a step that the initializer has been called on, any sequence of
    [findOrCreateProcess] and [updateProcess] calls, with any arguments and
    whether or not some of them throw, leaves at most one process of each
    type in the step's process list, provided the list the step came with
    had at most one of each (a step without execution comes with none). *)
Theorem one_process_per_type
        (sm : StatusManager.t) (step : Step.t) (cs : list Call) :
  atMostOnePerType (processes step) ->
  let init := initExecutionObject sm step in
  forall type : ProcessType,
    (length (ofType type (processes (snd (callAll cs (manager init) (stepAfter init)))))
     <= 1)%nat.
Proof.
  intros Hone init.
  assert (Hinit : atMostOnePerType (processes (stepAfter init))).
  { subst init. rewrite initExecutionObject_processes. exact Hone. }
  generalize dependent (stepAfter init). generalize (manager init). clear.
  induction cs as [|c rest IH]; intros sm step Hone; cbn [callAll].
  - exact Hone.
  - apply IH. apply call_keeps_atMostOne. exact Hone.
Qed.

(** *** [removeProcess] *)

Lemma splice_last {A} (l : list A) :
  JS.splice l (-1) 1 = take (length l - 1)%nat l.
Proof.
  unfold JS.splice. cbn [Z.ltb Z.compare].
  destruct l as [|x rest]; [reflexivity|].
  set (n := length (x :: rest)).
  assert (Hn : (1 <= n)%nat) by (subst n; cbn; lia).
  replace (Z.max (Z.of_nat n + -1) 0) with (Z.of_nat (n - 1)) by lia.
  replace (Z.min (Z.max 1 0) (Z.of_nat n - Z.of_nat (n - 1))) with 1 by lia.
  replace (Z.to_nat (Z.of_nat (n - 1) + 1)) with n by lia.
  rewrite Nat2Z.id. subst n. rewrite drop_all, app_nil_r. reflexivity.
Qed.

(** When no process has the given type, [findIndex] yields [-1] and
    [splice(-1, 1)] deletes the last process of the list. *)
Lemma removeProcess_absent_type type sm step e :
  Step.execution step = Some e ->
  JS.find (fun p => type_eqb (Process.type p) type) (Execution.process e) = None ->
  processes (stepAfter (removeProcess type sm step))
  = take (length (Execution.process e) - 1)%nat (Execution.process e).
Proof.
  intros He Hf.
  apply findIndex_none_iff in Hf.
  eassert (Hr : removeProcess type sm step = _).
  { unfold removeProcess. unfold bind at 1, getStep. rewrite He, Hf. reflexivity. }
  rewrite Hr.
  destruct (write_propagate_return
              (Step.set_execution
                 (Some (Execution.set_process (JS.splice (Execution.process e) (-1) 1) e))
                 step) tt sm step) as [Hstep _].
  cbn zeta in Hstep. rewrite Hstep. unfold processes. cbn. apply splice_last.
Qed.

End StatusManagerFacts.

(** ** Properties of the step executor settings *)

Section BaseStepExecutorFacts.
Import BaseStepExecutor.

(** C10. [setInteraction] spreads the given settings over the constant
    defaults: each flag takes the value given for it, and [true] when the
    argument omits it, whatever the flag was before; without an argument all
    three flags become [true].  Nothing else of the status manager changes. *)
Theorem setInteraction_merges_over_defaults
        (this : BaseStepExecutor.t) (settings : option InteractionSettings.t) :
  let given := default InteractionSettings.empty settings in
  let after := setInteraction settings this in
  let reset := setInteraction None this in
  (allowUserInteraction after = default true (InteractionSettings.allowInteraction given) /\
   StatusManager.shouldUpdate (statusManager after)
   = default true (InteractionSettings.allowUpdates given) /\
   allowExecution after = default true (InteractionSettings.allowExecution given) /\
   StatusManager.route (statusManager after) = StatusManager.route (statusManager this) /\
   StatusManager.hookCalls (statusManager after)
   = StatusManager.hookCalls (statusManager this)) /\
  (allowUserInteraction reset = true /\
   StatusManager.shouldUpdate (statusManager reset) = true /\
   allowExecution reset = true).
Proof.
  destruct settings as [[i u e]|]; cbn; repeat split; reflexivity.
Qed.

End BaseStepExecutorFacts.

(** ** Properties of the submission checkpoint *)

Section ExecuteStepFacts.
Context `{ProcessMessages}.
Import EVMStepExecutor.

(** A program that has ended makes no request. *)
Lemma run_Return {A : Type} (answer : forall X : Type, Request X -> X) (a : A) :
  run answer (Return a) = ([], a).
Proof. reflexivity. Qed.

(** The [updateProcess] call before the checkpoint has left the status that
    line 341 passes on the process it returns. *)
Lemma checkpoint_status clock this locals step (process process1 : Process.t) :
  StatusManager.outcome
    (StatusManager.updateProcess (Process.type process) (requiredStatus locals) None
       (atCheckpoint clock) (BaseStepExecutor.statusManager this) step)
  = Ok process1 ->
  Process.status process1 = requiredStatus locals.
Proof.
  intros Hout.
  destruct (Step.execution step) as [e|] eqn:He.
  2:{ rewrite updateProcess_no_execution in Hout by assumption.
      discriminate. }
  destruct (JS.find (fun p => type_eqb (Process.type p) (Process.type process))
                    (Execution.process e)) as [found|] eqn:Hf.
  2:{ rewrite (updateProcess_no_process _ _ _ _ _ _ e He Hf) in Hout. discriminate. }
  destruct (updateProcess_found (Process.type process) (requiredStatus locals) None
              (atCheckpoint clock) (BaseStepExecutor.statusManager this) step e found
              He Hf) as [_ [Hok|Hthrow]].
  - rewrite Hok in Hout.
    assert (Hp : process1
                 = StatusManager.updatedProcess (Process.type process)
                     (requiredStatus locals) None (atCheckpoint clock) found)
      by congruence.
    rewrite Hp. apply updatedProcess_status.
  - rewrite Hthrow in Hout. discriminate.
Qed.

End ExecuteStepFacts.

(** ** Properties of the Permit2 message builder *)

Section Permit2Facts.
Context `{Permit2.Environment}.
Import Permit2.

Lemma geb_ltb (a b : Z) : (a >=? b) = negb (a <? b).
Proof. rewrite Z.geb_leb. apply Z.leb_antisym. Qed.

Lemma forEach_validateTokenPermissions (l : list TokenPermissions) :
  forEach validateTokenPermissions l
  = if existsb (fun a => MaxSignatureTransferAmount <? a) (map amount l)
    then Throw (InvariantError "AMOUNT_OUT_OF_RANGE")
    else Ok tt.
Proof.
  induction l as [|x rest IH]; cbn; [reflexivity|].
  unfold validateTokenPermissions, invariant. rewrite geb_ltb.
  destruct (MaxSignatureTransferAmount <? amount x); cbn; [reflexivity | exact IH].
Qed.

(** The single-token builder: the first range violation, or the data. *)
Lemma getPermitTransferData_cases (permit : PermitTransferFrom) (permit2Address : string)
      (chainId : Z) (witness : option Witness) :
  getPermitTransferData permit permit2Address chainId witness
  = match rangeViolation (Single permit) with
    | Some violation => (permit, Throw (InvariantError violation))
    | None =>
        (written permit witness,
         Ok (mkData (permit2Domain permit2Address chainId) (builtTypes false witness)
                    (written permit witness)))
    end.
Proof.
  unfold getPermitTransferData, rangeViolation, validateTokenPermissions, invariant.
  cbn [deadlineOf nonceOf amounts existsb]. rewrite !geb_ltb, orb_false_r.
  destruct (MaxSigDeadline <? deadline permit); cbn; [reflexivity|].
  destruct (MaxUnorderedNonce <? nonce permit); cbn; [reflexivity|].
  destruct (MaxSignatureTransferAmount <? amount (permitted permit)); cbn; [reflexivity|].
  destruct witness as [[value typeName type]|]; reflexivity.
Qed.

(** The batch builder: the first range violation, or the data. *)
Lemma getPermitBatchTransferData_cases (permit : PermitBatchTransferFrom)
      (permit2Address : string) (chainId : Z) (witness : option Witness) :
  getPermitBatchTransferData permit permit2Address chainId witness
  = match rangeViolation (Batch permit) with
    | Some violation => (permit, Throw (InvariantError violation))
    | None =>
        (written permit witness,
         Ok (mkData (permit2Domain permit2Address chainId) (builtTypes true witness)
                    (written permit witness)))
    end.
Proof.
  unfold getPermitBatchTransferData, rangeViolation, invariant.
  cbn [deadlineOf nonceOf amounts]. rewrite !geb_ltb, forEach_validateTokenPermissions.
  destruct (MaxSigDeadline <? deadline permit); cbn; [reflexivity|].
  destruct (MaxUnorderedNonce <? nonce permit); cbn; [reflexivity|].
  destruct (existsb _ _); [reflexivity|].
  destruct witness as [[value typeName type]|]; reflexivity.
Qed.

(** [rangeViolation] reports a violation exactly for the permits that have a
    value out of range. *)
Lemma rangeViolation_iff (permit : Permit) :
  is_Some (rangeViolation permit) <->
  MaxSigDeadline < deadlineOf permit \/
  MaxUnorderedNonce < nonceOf permit \/
  Exists (fun a => MaxSignatureTransferAmount < a) (amounts permit).
Proof.
  unfold rangeViolation.
  destruct (Z.ltb_spec MaxSigDeadline (deadlineOf permit)) as [Hd|Hd].
  { split; [auto | intros _; eexists; reflexivity]. }
  destruct (Z.ltb_spec MaxUnorderedNonce (nonceOf permit)) as [Hn|Hn].
  { split; [auto | intros _; eexists; reflexivity]. }
  destruct (existsb _ _) eqn:Ha.
  - split; [|intros _; eexists; reflexivity].
    intros _. right; right. apply existsb_exists in Ha. destruct Ha as (a & Hin & Hlt).
    apply List.Exists_exists. exists a. split; [exact Hin|]. apply Z.ltb_lt. exact Hlt.
  - split; [intros [x Hx]; discriminate|].
    intros [Hd'|[Hn'|Ha']]; [lia | lia |].
    apply List.Exists_exists in Ha'. destruct Ha' as (a & Hin & Hlt).
    assert (Ht : existsb (fun a => MaxSignatureTransferAmount <? a) (amounts permit) = true).
    { apply existsb_exists. exists a. split; [exact Hin|]. apply Z.ltb_lt. exact Hlt. }
    congruence.
Qed.

(** C8. A permit with a deadline above [MaxSigDeadline], a nonce above
    [MaxUnorderedNonce] or a permitted amount above
    [MaxSignatureTransferAmount] makes [getPermitData] (hence the single and
    the batch builder) and [hash] throw the invariant error named after the
    first of these violations, leaving the permit as it was and without
    calling [hashTypedData].  For a permit in range the builders return the
    data, whose types define the primary type selected by (single or batch,
    witness or none), and [hash] passes exactly that primary type on. *)
Theorem permit_validation_and_primary_type
        (hashTypedData : TypedDataDefinition -> Result Exception Hash)
        (permit : Permit) (permit2Address : string) (chainId : Z)
        (witness : option Witness) :
  (is_Some (rangeViolation permit) <->
   MaxSigDeadline < deadlineOf permit \/
   MaxUnorderedNonce < nonceOf permit \/
   Exists (fun a => MaxSignatureTransferAmount < a) (amounts permit)) /\
  match rangeViolation permit with
  | Some violation =>
      In violation
         ["SIG_DEADLINE_OUT_OF_RANGE"; "NONCE_OUT_OF_RANGE"; "AMOUNT_OUT_OF_RANGE"] /\
      getPermitData permit permit2Address chainId witness
      = (permit, Throw (InvariantError violation)) /\
      hash hashTypedData permit permit2Address chainId witness
      = (permit, Throw (InvariantError violation))
  | None =>
      let batch := negb (isPermitTransferFrom permit) in
      let primary :=
        primaryTypeFor batch (match witness with Some _ => true | None => false end) in
      let members :=
        [param "permitted" (if batch then "TokenPermissions[]" else "TokenPermissions");
         param "spender" "address"; param "nonce" "uint256"; param "deadline" "uint256"]
          ++ match witness with
             | Some w => [param "witness" (witnessTypeName w)]
             | None => []
             end in
      exists (permit' : Permit) (data : PermitData),
        getPermitData permit permit2Address chainId witness = (permit', Ok data) /\
        dataValues data = permit' /\
        dataTypes data !! primary = Some members /\
        hash hashTypedData permit permit2Address chainId witness
        = (permit',
           hashTypedData
             (mkDefinition (dataDomain data) (dataTypes data) primary (dataValues data)))
  end.
Proof.
  split; [apply rangeViolation_iff|].
  destruct (rangeViolation permit) as [violation|] eqn:Hv.
  - split.
    { unfold rangeViolation in Hv. cbn [In].
      destruct (_ <? deadlineOf permit); [injection Hv as <-; auto|].
      destruct (_ <? nonceOf permit); [injection Hv as <-; auto|].
      destruct (existsb _ _); [injection Hv as <-; auto | discriminate]. }
    destruct permit as [p|p]; unfold getPermitData, hash;
      [rewrite getPermitTransferData_cases | rewrite getPermitBatchTransferData_cases];
      rewrite Hv; auto.
  - destruct permit as [p|p]; cbn [isPermitTransferFrom negb].
    + exists (Single (written p witness)),
             (SingleData (mkData (permit2Domain permit2Address chainId)
                                 (builtTypes false witness) (written p witness))).
      unfold getPermitData, hash. rewrite getPermitTransferData_cases, Hv.
      cbn [dataValues dataTypes dataDomain values types domain].
      repeat split; destruct witness as [w|]; cbn [builtTypes primaryTypeFor app];
        try reflexivity; apply lookup_insert_eq.
    + exists (Batch (written p witness)),
             (BatchData (mkData (permit2Domain permit2Address chainId)
                                (builtTypes true witness) (written p witness))).
      unfold getPermitData, hash. rewrite getPermitBatchTransferData_cases, Hv.
      cbn [dataValues dataTypes dataDomain values types domain].
      repeat split; destruct witness as [w|]; cbn [builtTypes primaryTypeFor app];
        try reflexivity; apply lookup_insert_eq.
Qed.

(** C4, as the code has it.  The builders run no request and read no state,
    but with a witness a successful call writes the witness value onto the
    caller's permit object as its [witness] property; the permitted tokens and
    amounts, the spender, the nonce and the deadline are never written.  The
    object is exactly as before when no witness is passed and when a range
    check fails.  [hash] leaves the object as [getPermitData] does. *)
Theorem builders_write_only_the_witness
        (hashTypedData : TypedDataDefinition -> Result Exception Hash)
        (permit : Permit) (permit2Address : string) (chainId : Z)
        (witness : option Witness) :
  let after := fst (getPermitData permit permit2Address chainId witness) in
  fst (hash hashTypedData permit permit2Address chainId witness) = after /\
  after = match witness, rangeViolation permit with
          | Some w, None => withWitness permit (Permit2.witness w)
          | _, _ => permit
          end /\
  sameButWitness permit after.
Proof.
  cbv zeta.
  destruct permit as [p|p]; unfold getPermitData, hash;
    [rewrite getPermitTransferData_cases | rewrite getPermitBatchTransferData_cases];
    destruct (rangeViolation _) as [violation|];
    destruct witness as [[value typeName type]|]; cbn; repeat split; reflexivity.
Qed.

End Permit2Facts.

(** ** More properties of the status manager *)

Section StatusManagerMore.
Context `{ProcessMessages}.
Import StatusManager.

(** *** Propagation *)

Lemma findIndexFrom_find {A} (f : A -> bool) (l : list A) (k : Z) (x : A) :
  JS.find f l = Some x ->
  exists i : nat,
    JS.findIndexFrom f k l = k + Z.of_nat i /\
    l !! i = Some x /\ f x = true /\
    forall (j : nat) (y : A), (j < i)%nat -> l !! j = Some y -> f y = false.
Proof.
  unfold JS.find. revert k. induction l as [|y rest IH]; intros k; cbn; [discriminate|].
  destruct (f y) eqn:Hy.
  - intros [= ->]. exists 0%nat. repeat split; [lia | assumption | intros j z Hj; lia].
  - intros Hf. destruct (IH (k + 1) Hf) as (i & Hi & Hl & Hx & Hfirst).
    exists (S i). repeat split; [lia | exact Hl | exact Hx |].
    intros [|j] z Hj Hz; cbn in Hz; [congruence|]. apply (Hfirst j); [lia | exact Hz].
Qed.

(** With updates enabled and a step of that id in the route, propagation
    assigns the step onto the first such step and calls the two hooks. *)
Lemma updateStepInRoute_enabled (sm : StatusManager.t) (step target : Step.t) :
  shouldUpdate sm = true ->
  JS.find (fun routeStep => String.eqb (Step.id routeStep) (Step.id step))
          (steps (route sm)) = Some target ->
  exists i : nat,
    steps (route sm) !! i = Some target /\
    Step.id target = Step.id step /\
    (forall (j : nat) (y : Step.t),
        (j < i)%nat -> steps (route sm) !! j = Some y -> Step.id y <> Step.id step) /\
    updateStepInRoute sm step
    = (let route' := mkRoute (<[i := Object_assign target step]> (steps (route sm))) in
       (StatusManager.mk route' true
          (hookCalls sm ++ [UpdateRouteHook route'; InternalUpdateRouteCallback route']),
        step, Ok (Object_assign target step))).
Proof.
  intros Hs Hf.
  destruct (findIndexFrom_find _ _ 0 _ Hf) as (i & Hi & Hl & Hx & Hfirst).
  exists i. split; [exact Hl|]. split; [apply String.eqb_eq; exact Hx|].
  split.
  { intros j y Hj Hy Heq. specialize (Hfirst j y Hj Hy). apply String.eqb_neq in Hfirst.
    contradiction. }
  unfold updateStepInRoute. rewrite Hs. cbn [negb].
  unfold JS.findIndex. rewrite Hi.
  replace (0 + Z.of_nat i =? -1) with false by (symmetry; apply Z.eqb_neq; lia).
  replace (Z.to_nat (0 + Z.of_nat i)) with i by lia.
  rewrite Hl. reflexivity.
Qed.

Lemma updateStepInRoute_missing (sm : StatusManager.t) (step : Step.t) :
  shouldUpdate sm = true ->
  JS.find (fun routeStep => String.eqb (Step.id routeStep) (Step.id step))
          (steps (route sm)) = None ->
  updateStepInRoute sm step = (sm, step, Throw "Couldn't find a step to update.").
Proof.
  intros Hs Hf. apply findIndex_none_iff in Hf.
  unfold updateStepInRoute. rewrite Hs, Hf. reflexivity.
Qed.

Lemma map_id_insert (l : list Step.t) (i : nat) (target s : Step.t) :
  l !! i = Some target -> Step.id s = Step.id target ->
  map Step.id (<[i := s]> l) = map Step.id l.
Proof.
  revert i. induction l as [|y rest IH]; intros [|i] Hl Hid; cbn in *;
    try discriminate.
  - injection Hl as ->. f_equal. exact Hid.
  - f_equal. exact (IH i Hl Hid).
Qed.

(** What propagation does to the manager: nothing, or one assignment in the
    route and one call of each hook with the route after the assignment. *)
Lemma updateStepInRoute_manager (sm : StatusManager.t) (step : Step.t) :
  let sm' := manager (updateStepInRoute sm step) in
  routeIds sm' = routeIds sm /\
  shouldUpdate sm' = shouldUpdate sm /\
  (sm' = sm \/
   hookCalls sm'
   = hookCalls sm ++ [UpdateRouteHook (route sm'); InternalUpdateRouteCallback (route sm')]).
Proof.
  destruct (shouldUpdate sm) eqn:Hs.
  2:{ rewrite updateStepInRoute_suppressed by assumption. cbn. auto. }
  destruct (JS.find (fun routeStep => String.eqb (Step.id routeStep) (Step.id step))
                    (steps (route sm))) as [target|] eqn:Hf.
  2:{ rewrite updateStepInRoute_missing by assumption. cbn. auto. }
  destruct (updateStepInRoute_enabled sm step target Hs Hf) as (i & Hl & Hid & _ & ->).
  cbn. unfold routeIds. cbn.
  split; [|auto].
  apply (map_id_insert _ _ target); [exact Hl|]. cbn. congruence.
Qed.

Lemma canPropagate_outcome (sm : StatusManager.t) (step : Step.t) :
  canPropagate sm step = true ->
  exists updated, outcome (updateStepInRoute sm step) = Ok updated.
Proof.
  unfold canPropagate. intros Hc.
  destruct (shouldUpdate sm) eqn:Hs.
  2:{ rewrite updateStepInRoute_suppressed by assumption. eexists; reflexivity. }
  cbn in Hc.
  destruct (JS.find _ _) as [target|] eqn:Hf; [|discriminate].
  destruct (updateStepInRoute_enabled sm step target Hs Hf) as (i & _ & _ & _ & ->).
  eexists; reflexivity.
Qed.

(** Whether propagation goes through depends on the ids of the route, on the
    flag and on the id of the step only. *)
Lemma canPropagate_ids (sm sm' : StatusManager.t) (step step' : Step.t) :
  routeIds sm' = routeIds sm -> shouldUpdate sm' = shouldUpdate sm ->
  Step.id step' = Step.id step ->
  canPropagate sm' step' = canPropagate sm step.
Proof.
  unfold canPropagate, routeIds. intros Hids -> ->. f_equal.
  generalize dependent (steps (route sm')).
  induction (steps (route sm)) as [|y rest IH]; intros [|y' rest'] Hids; cbn in *;
    try discriminate; [reflexivity|].
  injection Hids as Hy Hrest. unfold JS.find in *. rewrite Hy.
  destruct (String.eqb (Step.id y) (Step.id step)); [reflexivity|]. apply IH. exact Hrest.
Qed.

(** *** The shape of the operations *)

Lemma writeAndPropagate_stepAfter {A} (s : Step.t) (a : A) sm step :
  stepAfter (writeAndPropagate s a sm step) = s.
Proof. apply (write_propagate_return s a sm step). Qed.

Lemma writeAndPropagate_return {A} (s : Step.t) (a : A) sm step :
  stepAfter (writeAndPropagate s a sm step) = s /\
  (outcome (writeAndPropagate s a sm step) = Ok a \/
   outcome (writeAndPropagate s a sm step) = Throw "Couldn't find a step to update.").
Proof. apply (write_propagate_return s a sm step). Qed.

Lemma writeAndPropagate_manager {A} (s : Step.t) (a : A) sm step :
  manager (writeAndPropagate s a sm step) = manager (updateStepInRoute sm s).
Proof.
  unfold writeAndPropagate, bind, putStep, ret, manager.
  destruct (updateStepInRoute sm s) as [[sm' st'] [u|m]]; reflexivity.
Qed.

Lemma writeAndPropagate_outcome {A} (s : Step.t) (a : A) sm step :
  outcome (writeAndPropagate s a sm step)
  = match outcome (updateStepInRoute sm s) with
    | Ok _ => Ok a
    | Throw m => Throw m
    end.
Proof.
  unfold writeAndPropagate, bind, putStep, ret, outcome.
  destruct (updateStepInRoute sm s) as [[sm' st'] [u|m]]; reflexivity.
Qed.

Lemma initExecutionObject_behaves (step : Step.t) :
  exists w res,
    behaves initExecutionObject step w res /\
    res <> Throw "Couldn't find a step to update.".
Proof.
  destruct (Step.execution step) as [e|] eqn:He.
  - destruct (status_eqb (Execution.status e) FAILED) eqn:Hs.
    + exists (Some (Execution.set_status PENDING e, Execution.set_status PENDING e)),
             (Ok e).
      split; [|discriminate]. intros sm.
      unfold initExecutionObject, writeAndPropagate.
      unfold bind at 1, getStep. rewrite He.
      unfold bind at 1, ret at 1. rewrite Hs. reflexivity.
    + exists None, (Ok e). split; [|discriminate]. intros sm.
      unfold initExecutionObject, bind, getStep, ret. rewrite He, Hs. reflexivity.
  - exists (Some (Execution.set_status PENDING emptyExecution,
                  Execution.set_status PENDING emptyExecution)), (Ok emptyExecution).
    split; [|discriminate]. intros sm.
    unfold initExecutionObject, writeAndPropagate, bind, getStep, putStep, ret.
    rewrite He. cbn.
    destruct (updateStepInRoute sm _) as [[sm' st'] [u|m]]; reflexivity.
Qed.

Lemma updateExecution_behaves status receipt (step : Step.t) :
  exists w res,
    behaves (updateExecution status receipt) step w res /\
    res <> Throw "Couldn't find a step to update.".
Proof.
  destruct (Step.execution step) as [e|] eqn:He.
  - set (e' := match receipt with
               | Some r => mergeReceipt (Execution.set_status status e) r
               | None => Execution.set_status status e
               end).
    exists (Some (e', Step.set_execution (Some e') step)), (Ok step).
    split; [|discriminate]. intros sm.
    unfold updateExecution, writeAndPropagate. unfold bind at 1, getStep. rewrite He.
    fold e'. unfold bind, putStep, ret.
    pose proof (updateStepInRoute_step sm (Step.set_execution (Some e') step)) as Hu.
    destruct (updateStepInRoute sm (Step.set_execution (Some e') step))
      as [[sm' st'] [u|m]]; cbn in Hu; subst; reflexivity.
  - exists None, (Throw "Can't update empty execution."). split; [|discriminate].
    intros sm. unfold updateExecution, bind, getStep, throw. rewrite He. reflexivity.
Qed.

Lemma findOrCreateProcess_behaves type status now (step : Step.t) :
  exists w res,
    behaves (findOrCreateProcess type status now) step w res /\
    res <> Throw "Couldn't find a step to update.".
Proof.
  destruct (Step.execution step) as [e|] eqn:He.
  2:{ exists None, (Throw "Execution hasn't been initialized."). split; [|discriminate].
      intros sm. apply findOrCreateProcess_no_execution. exact He. }
  destruct (JS.find (fun p => type_eqb (Process.type p) type) (Execution.process e))
    as [found|] eqn:Hf.
  - assert (Hsame : status = None \/ status = Some (Process.status found) \/
                    exists s, status = Some s /\ Process.status found <> s).
    { destruct status as [s|]; [|auto].
      destruct (decide (Process.status found = s)) as [<-|Hne]; [auto|].
      right; right. exists s. auto. }
    destruct Hsame as [Hs|[Hs|(s & -> & Hne)]].
    + exists None, (Ok found). split; [|discriminate]. intros sm.
      apply (findOrCreateProcess_found_same _ _ _ _ _ e); auto.
    + exists None, (Ok found). split; [|discriminate]. intros sm.
      apply (findOrCreateProcess_found_same _ _ _ _ _ e); auto.
    + eexists (Some (_, _)), (Ok found). split; [|discriminate]. intros sm.
      unfold findOrCreateProcess, writeAndPropagate. unfold bind at 1, getStep.
      rewrite He, Hf. unfold status_eqb.
      rewrite bool_decide_eq_false_2 by assumption. reflexivity.
  - eexists (Some (_, _)), (Throw ""). split; [|discriminate].
    intros sm.
    unfold findOrCreateProcess, writeAndPropagate. unfold bind at 1, getStep.
    rewrite He, Hf. reflexivity.
Qed.

Lemma updateProcess_behaves type status params now (step : Step.t) :
  exists w res,
    behaves (updateProcess type status params now) step w res /\
    res <> Throw "Couldn't find a step to update.".
Proof.
  destruct (Step.execution step) as [e|] eqn:He.
  2:{ exists None, (Throw "Can't update an empty step execution.").
      split; [|discriminate]. intros sm. apply updateProcess_no_execution. exact He. }
  destruct (JS.find (fun p => type_eqb (Process.type p) type) (Execution.process e))
    as [found|] eqn:Hf.
  - eexists (Some (_, _)), (Ok found). split; [|discriminate]. intros sm.
    unfold updateProcess, writeAndPropagate. unfold bind at 1, getStep.
    rewrite He, Hf. reflexivity.
  - exists None, (Throw "Can't find a process for the given type.").
    split; [|discriminate]. intros sm. apply (updateProcess_no_process _ _ _ _ _ _ e); auto.
Qed.

Lemma removeProcess_behaves type (step : Step.t) :
  exists w res,
    behaves (removeProcess type) step w res /\
    res <> Throw "Couldn't find a step to update.".
Proof.
  destruct (Step.execution step) as [e|] eqn:He.
  - eexists (Some (_, _)), (Ok tt). split; [|discriminate]. intros sm.
    unfold removeProcess, writeAndPropagate. unfold bind at 1, getStep.
    rewrite He. reflexivity.
  - exists None, (Throw "Execution hasn't been initialized."). split; [|discriminate].
    intros sm. unfold removeProcess, bind, getStep, throw. rewrite He. reflexivity.
Qed.

(** What follows from the shape of an operation, for every manager. *)
Lemma behaves_facts {A} (m : M A) (step : Step.t) w res (sm : StatusManager.t) :
  behaves m step w res ->
  res <> Throw "Couldn't find a step to update." ->
  stepAfter (m sm step)
  = match w with
    | Some (e, _) => Step.set_execution (Some e) step
    | None => step
    end /\
  manager (m sm step)
  = match w with
    | Some (e, _) => manager (updateStepInRoute sm (Step.set_execution (Some e) step))
    | None => sm
    end /\
  (shouldUpdate sm = false ->
   manager (m sm step) = sm /\
   outcome (m sm step) <> Throw "Couldn't find a step to update.").
Proof.
  intros Hb Hres. rewrite (Hb sm). destruct w as [[e a]|].
  - rewrite writeAndPropagate_stepAfter, writeAndPropagate_manager,
      writeAndPropagate_outcome.
    repeat split.
    + rewrite updateStepInRoute_suppressed by assumption. reflexivity.
    + rewrite updateStepInRoute_suppressed by assumption. cbn. discriminate.
  - cbn. auto.
Qed.

(** Every operation has a shape. *)
Lemma perform_behaves (op : Operation) (step : Step.t) :
  exists w : option Execution.t,
  forall sm : StatusManager.t,
    perform op sm step
    = match w with
      | Some e =>
          (manager (updateStepInRoute sm (Step.set_execution (Some e) step)),
           Step.set_execution (Some e) step)
      | None => (sm, step)
      end.
Proof.
  assert (Hgen : forall {A} (m : M A),
             (exists w res, behaves m step w res /\
                            res <> Throw "Couldn't find a step to update.") ->
             exists w : option Execution.t,
             forall sm,
               (manager (m sm step), stepAfter (m sm step))
               = match w with
                 | Some e =>
                     (manager (updateStepInRoute sm (Step.set_execution (Some e) step)),
                      Step.set_execution (Some e) step)
                 | None => (sm, step)
                 end).
  { intros A m (w & res & Hb & Hres).
    exists (fst <$> w). intros sm.
    destruct (behaves_facts m step w res sm Hb Hres) as (-> & -> & _).
    destruct w as [[e a]|]; reflexivity. }
  destruct op as [|status receipt|type status now|type status params now|type];
    cbn [perform]; apply Hgen.
  - apply initExecutionObject_behaves.
  - apply updateExecution_behaves.
  - apply findOrCreateProcess_behaves.
  - apply updateProcess_behaves.
  - apply removeProcess_behaves.
Qed.

(** *** The initializer *)

(** X1. On a step without execution the initializer creates one, a copy of
    [emptyExecution] with status PENDING, and writes nothing else. *)
Theorem initExecutionObject_creates_execution (sm : StatusManager.t) (step : Step.t) :
  Step.execution step = None ->
  let r := initExecutionObject sm step in
  let created := Execution.set_status PENDING emptyExecution in
  stepAfter r = Step.set_execution (Some created) step /\
  (outcome r = Ok created \/ outcome r = Throw "Couldn't find a step to update.").
Proof.
  intros He r created.
  assert (Hr : r = writeAndPropagate (Step.set_execution (Some created) step) created
                                     sm step).
  { subst r. unfold initExecutionObject, writeAndPropagate, bind, getStep, putStep, ret.
    rewrite He. cbn.
    destruct (updateStepInRoute sm _) as [[sm' st'] [u|m]]; reflexivity. }
  rewrite Hr. apply writeAndPropagate_return.
Qed.

(** An execution that is there and has not failed is returned as it is. *)
Lemma initExecutionObject_keeps (sm : StatusManager.t) (step : Step.t) (e : Execution.t) :
  Step.execution step = Some e -> Execution.status e <> FAILED ->
  initExecutionObject sm step = (sm, step, Ok e).
Proof.
  intros He Hs. unfold initExecutionObject, bind, getStep, ret. rewrite He.
  unfold status_eqb. rewrite bool_decide_eq_false_2 by assumption. reflexivity.
Qed.

(** X2. A second call of the initializer, whatever the first one met, returns the
    execution that the first one left, writes nothing and calls no hook. *)
Theorem initExecutionObject_twice (sm sm' : StatusManager.t) (step : Step.t) :
  let first := initExecutionObject sm step in
  exists e : Execution.t,
    Step.execution (stepAfter first) = Some e /\
    Execution.status e <> FAILED /\
    initExecutionObject sm' (stepAfter first) = (sm', stepAfter first, Ok e).
Proof.
  intros first.
  assert (He : exists e, Step.execution (stepAfter first) = Some e /\
                         Execution.status e <> FAILED).
  { subst first. rewrite initExecutionObject_stepAfter.
    destruct (Step.execution step) as [e|] eqn:Hx.
    - destruct (status_eqb (Execution.status e) FAILED) eqn:Hs.
      + eexists. split; [reflexivity|]. cbn. discriminate.
      + exists e. split; [exact Hx|].
        unfold status_eqb in Hs. apply bool_decide_eq_false_1 in Hs. exact Hs.
    - eexists. split; [reflexivity|]. cbn. discriminate. }
  destruct He as (e & He & Hs). exists e. repeat split; try assumption.
  apply initExecutionObject_keeps; assumption.
Qed.

(** *** [updateExecution] *)

Lemma updateExecution_found status receipt sm step e :
  Step.execution step = Some e ->
  let e' := match receipt with
            | Some r => mergeReceipt (Execution.set_status status e) r
            | None => Execution.set_status status e
            end in
  updateExecution status receipt sm step
  = writeAndPropagate (Step.set_execution (Some e') step)
                      (Step.set_execution (Some e') step) sm step.
Proof.
  intros He e'.
  unfold updateExecution, writeAndPropagate. unfold bind at 1, getStep. rewrite He.
  fold e'. unfold bind, putStep, ret.
  pose proof (updateStepInRoute_step sm (Step.set_execution (Some e') step)) as Hu.
  destruct (updateStepInRoute sm (Step.set_execution (Some e') step))
    as [[sm' st'] [u|m]]; cbn in Hu; subst; reflexivity.
Qed.

(** X3. [updateExecution] sets the execution status, copies every key that the
    receipt has over the execution's, with its value, [undefined] included,
    keeps the properties whose key the receipt lacks (all of them when no
    receipt is passed) and the process list, and returns the step. *)
Theorem updateExecution_effects
        (sm : StatusManager.t) (step : Step.t) (e : Execution.t)
        (status : Status) (receipt : option ReceiptEntries) :
  Step.execution step = Some e ->
  let r := updateExecution status receipt sm step in
  let given := default noReceiptEntries receipt in
  exists e' : Execution.t,
    Step.execution (stepAfter r) = Some e' /\
    Execution.status e' = status /\
    Execution.process e' = Execution.process e /\
    fromAmount (Execution.receipt e')
    = JS.overwrite (fromAmount (Execution.receipt e)) (fromAmountEntry given) /\
    toAmount (Execution.receipt e')
    = JS.overwrite (toAmount (Execution.receipt e)) (toAmountEntry given) /\
    toToken (Execution.receipt e')
    = JS.overwrite (toToken (Execution.receipt e)) (toTokenEntry given) /\
    gasPrice (Execution.receipt e')
    = JS.overwrite (gasPrice (Execution.receipt e)) (gasPriceEntry given) /\
    gasUsed (Execution.receipt e')
    = JS.overwrite (gasUsed (Execution.receipt e)) (gasUsedEntry given) /\
    gasToken (Execution.receipt e')
    = JS.overwrite (gasToken (Execution.receipt e)) (gasTokenEntry given) /\
    gasAmount (Execution.receipt e')
    = JS.overwrite (gasAmount (Execution.receipt e)) (gasAmountEntry given) /\
    gasAmountUSD (Execution.receipt e')
    = JS.overwrite (gasAmountUSD (Execution.receipt e)) (gasAmountUSDEntry given) /\
    (outcome r = Ok (stepAfter r) \/
     outcome r = Throw "Couldn't find a step to update.").
Proof.
  intros He r given.
  pose proof (updateExecution_found status receipt sm step e He) as Hr.
  cbv zeta in Hr. subst r. rewrite Hr.
  destruct (writeAndPropagate_return
              (Step.set_execution
                 (Some match receipt with
                       | Some r0 => mergeReceipt (Execution.set_status status e) r0
                       | None => Execution.set_status status e
                       end) step)
              (Step.set_execution
                 (Some match receipt with
                       | Some r0 => mergeReceipt (Execution.set_status status e) r0
                       | None => Execution.set_status status e
                       end) step) sm step) as [Hstep Hout].
  rewrite Hstep.
  eexists. split; [reflexivity|].
  subst given. destruct receipt as [r0|]; cbn; repeat split; auto.
Qed.

(** *** Operations on a step without execution *)

(** X4. Every operation but the initializer throws on a step that has no
    execution, each with its own message, and writes nothing. *)
Theorem missing_execution_throws
        (sm : StatusManager.t) (step : Step.t)
        (type : ProcessType) (status : Status) (optional : option Status)
        (receipt : option ReceiptEntries) (params : option OptionalParameters) (now : Z) :
  Step.execution step = None ->
  updateExecution status receipt sm step
  = (sm, step, Throw "Can't update empty execution.") /\
  findOrCreateProcess type optional now sm step
  = (sm, step, Throw "Execution hasn't been initialized.") /\
  updateProcess type status params now sm step
  = (sm, step, Throw "Can't update an empty step execution.") /\
  removeProcess type sm step
  = (sm, step, Throw "Execution hasn't been initialized.").
Proof.
  intros He. repeat split.
  - unfold updateExecution, bind, getStep, throw. rewrite He. reflexivity.
  - apply findOrCreateProcess_no_execution. exact He.
  - apply updateProcess_no_execution. exact He.
  - unfold removeProcess, bind, getStep, throw. rewrite He. reflexivity.
Qed.

(** X5. [updateProcess] does not create the process it is asked to update: when
    the step has no process of the type it throws and writes nothing, where
    [findOrCreateProcess] adds one. *)
Theorem updateProcess_missing_type_throws
        (sm : StatusManager.t) (step : Step.t) (e : Execution.t)
        (type : ProcessType) (status : Status)
        (params : option OptionalParameters) (now : Z) :
  Step.execution step = Some e ->
  ofType type (Execution.process e) = [] ->
  updateProcess type status params now sm step
  = (sm, step, Throw "Can't find a process for the given type.") /\
  length (processes (stepAfter (findOrCreateProcess type (Some status) now sm step)))
  = S (length (Execution.process e)).
Proof.
  intros He Hnone.
  assert (Hf : JS.find (fun p => type_eqb (Process.type p) type) (Execution.process e)
               = None).
  { unfold ofType, JS.filter, JS.find in *.
    induction (Execution.process e) as [|y rest IH]; cbn in *; [reflexivity|].
    destruct (type_eqb (Process.type y) type); [discriminate | auto]. }
  split; [apply (updateProcess_no_process _ _ _ _ _ _ e); assumption|].
  destruct (findOrCreateProcess_created type (Some status) now sm step e He Hf) as [-> _].
  unfold processes. cbn. rewrite length_app. cbn. lia.
Qed.

(** *** [findOrCreateProcess] and [removeProcess] *)

Lemma find_mutateFound {A} (f : A -> bool) (g : A -> A) (l : list A) (x : A) :
  JS.find f l = Some x -> f (g x) = true ->
  JS.find f (JS.mutateFound f g l) = Some (g x).
Proof.
  unfold JS.find. induction l as [|y rest IH]; cbn; [discriminate|].
  destruct (f y) eqn:Hy.
  - intros [= ->] Hg. cbn. rewrite Hg. reflexivity.
  - intros Hf Hg. cbn. rewrite Hy. auto.
Qed.

Lemma find_push {A} (f : A -> bool) (l : list A) (x : A) :
  JS.find f l = None -> f x = true ->
  JS.find f (l ++ [x]) = Some x /\
  JS.findIndex f (l ++ [x]) = Z.of_nat (length l).
Proof.
  unfold JS.find, JS.findIndex. intros Hf Hx.
  assert (Hgen : forall k, JS.findIndexFrom f k (l ++ [x]) = k + Z.of_nat (length l)).
  { induction l as [|y rest IH]; intros k; cbn in *.
    - rewrite Hx. lia.
    - destruct (f y); [discriminate|]. rewrite IH by assumption. lia. }
  split; [|apply Hgen]. clear Hgen.
  induction l as [|y rest IH]; cbn in *; [rewrite Hx; reflexivity|].
  destruct (f y); [discriminate | auto].
Qed.

Lemma splice_one {A} (l : list A) (i : nat) :
  (i < length l)%nat ->
  JS.splice l (Z.of_nat i) 1 = take i l ++ drop (S i) l.
Proof.
  intros Hi. unfold JS.splice.
  replace (Z.of_nat i <? 0) with false by (symmetry; apply Z.ltb_ge; lia).
  replace (Z.min (Z.of_nat i) (Z.of_nat (length l))) with (Z.of_nat i) by lia.
  replace (Z.min (Z.max 1 0) (Z.of_nat (length l) - Z.of_nat i)) with 1 by lia.
  replace (Z.to_nat (Z.of_nat i + 1)) with (S i) by lia.
  rewrite Nat2Z.id. reflexivity.
Qed.

Lemma ofType_nil_find type (l : list Process.t) :
  ofType type l = [] ->
  JS.find (fun p => type_eqb (Process.type p) type) l = None.
Proof.
  unfold ofType, JS.filter, JS.find.
  induction l as [|y rest IH]; cbn; [reflexivity|].
  destruct (type_eqb (Process.type y) type); [discriminate | exact IH].
Qed.

(** X6. When the step has no process of the type, [findOrCreateProcess] adds one
    at the end of the list and leaves the processes before it as they were;
    the new process has the status passed, STARTED when none is, the time of
    the call as [startedAt], the message of that type and status, and no other
    field. *)
Theorem findOrCreateProcess_appends
        (sm : StatusManager.t) (step : Step.t) (e : Execution.t)
        (type : ProcessType) (status : option Status) (now : Z) :
  Step.execution step = Some e ->
  ofType type (Execution.process e) = [] ->
  let r := findOrCreateProcess type status now sm step in
  let status' := default STARTED status in
  let newProcess :=
    Process.mk type status' now (getProcessMessage type status')
               None None None None None None None None in
  processes (stepAfter r) = Execution.process e ++ [newProcess] /\
  Execution.status <$> Step.execution (stepAfter r) = Some (Execution.status e) /\
  (outcome r = Ok newProcess \/ outcome r = Throw "Couldn't find a step to update.").
Proof.
  intros He Hnone r status' newProcess.
  destruct (findOrCreateProcess_created type status now sm step e He
              (ofType_nil_find _ _ Hnone)) as [Hstep Hout].
  fold r in Hstep, Hout. rewrite Hstep. unfold processes. cbn. auto.
Qed.

(** X7. A call of [findOrCreateProcess] on a process that is there, without a
    status or with the status the process has, returns the process, writes
    nothing and calls no hook. *)
Theorem findOrCreateProcess_existing_is_silent
        (sm : StatusManager.t) (step : Step.t) (e : Execution.t)
        (process : Process.t) (type : ProcessType) (now : Z) :
  Step.execution step = Some e ->
  JS.find (fun p => type_eqb (Process.type p) type) (Execution.process e) = Some process ->
  findOrCreateProcess type None now sm step = (sm, step, Ok process) /\
  findOrCreateProcess type (Some (Process.status process)) now sm step
  = (sm, step, Ok process).
Proof.
  intros He Hf.
  split; apply (findOrCreateProcess_found_same _ _ _ _ _ e); auto.
Qed.

(** X8. After a call of [findOrCreateProcess] on a step with an execution, the
    step has a process of the type, with the status passed if one was, and a
    second call with the same type and status returns that process, writes
    nothing and calls no hook, at whatever time and with whatever manager. *)
Theorem findOrCreateProcess_twice
        (sm sm' : StatusManager.t) (step : Step.t) (e : Execution.t)
        (type : ProcessType) (status : option Status) (now now' : Z) :
  Step.execution step = Some e ->
  let first := findOrCreateProcess type status now sm step in
  exists p : Process.t,
    JS.find (fun q => type_eqb (Process.type q) type) (processes (stepAfter first))
    = Some p /\
    Process.type p = type /\
    match status with
    | Some s => Process.status p = s
    | None => True
    end /\
    (outcome first = Ok p \/ outcome first = Throw "Couldn't find a step to update.") /\
    findOrCreateProcess type status now' sm' (stepAfter first)
    = (sm', stepAfter first, Ok p).
Proof.
  intros He first.
  assert (Hprocs : forall s' e', s' = Step.set_execution (Some e') step ->
                     Step.execution s' = Some e' /\ processes s' = Execution.process e').
  { intros s' e' ->. split; reflexivity. }
  destruct (JS.find (fun q => type_eqb (Process.type q) type) (Execution.process e))
    as [found|] eqn:Hf.
  - destruct (find_found_type _ _ _ Hf) as [_ Hty].
    assert (Hcases : status = None \/ status = Some (Process.status found) \/
                     exists s, status = Some s /\ Process.status found <> s).
    { destruct status as [s|]; [|auto].
      destruct (decide (Process.status found = s)) as [<-|Hne]; [auto|].
      right; right. exists s. auto. }
    destruct Hcases as [Hs|[Hs|(s & -> & Hne)]].
    + assert (Hfirst : first = (sm, step, Ok found))
        by (apply (findOrCreateProcess_found_same _ _ _ _ _ e); auto).
      rewrite Hfirst. unfold stepAfter, outcome. cbn [fst snd].
      exists found. unfold processes. rewrite He.
      repeat split; auto.
      * rewrite Hs. exact I.
      * apply (findOrCreateProcess_found_same _ _ _ _ _ e); auto.
    + assert (Hfirst : first = (sm, step, Ok found))
        by (apply (findOrCreateProcess_found_same _ _ _ _ _ e); auto).
      rewrite Hfirst. unfold stepAfter, outcome. cbn [fst snd].
      exists found. unfold processes. rewrite He.
      repeat split; auto.
      * rewrite Hs. reflexivity.
      * apply (findOrCreateProcess_found_same _ _ _ _ _ e); auto.
    + destruct (findOrCreateProcess_found_other type s now sm step e found He Hf Hne)
        as [Hstep Hout].
      fold first in Hstep, Hout.
      destruct (Hprocs _ _ Hstep) as [He1 Hp1].
      assert (Hf1 : JS.find (fun q => type_eqb (Process.type q) type)
                            (processes (stepAfter first))
                    = Some (Process.set_status s found)).
      { rewrite Hp1. cbn. apply find_mutateFound; [exact Hf|].
        cbn. unfold type_eqb. apply bool_decide_eq_true_2. exact Hty. }
      exists (Process.set_status s found).
      split; [exact Hf1|]. split; [exact Hty|]. split; [reflexivity|].
      split; [exact Hout|].
      rewrite Hp1 in Hf1.
      apply (findOrCreateProcess_found_same _ _ _ _ _ _ _ He1 Hf1). right. reflexivity.
  - destruct (findOrCreateProcess_created type status now sm step e He Hf)
      as [Hstep Hout].
    fold first in Hstep, Hout.
    destruct (Hprocs _ _ Hstep) as [He1 Hp1].
    set (newProcess := Process.mk type (default STARTED status) now
                         (getProcessMessage type (default STARTED status))
                         None None None None None None None None) in *.
    assert (Hf1 : JS.find (fun q => type_eqb (Process.type q) type)
                          (processes (stepAfter first)) = Some newProcess).
    { rewrite Hp1. cbn. apply find_push; [exact Hf|].
      cbn. unfold type_eqb. apply bool_decide_eq_true_2. reflexivity. }
    exists newProcess.
    split; [exact Hf1|]. split; [reflexivity|].
    split; [destruct status; [reflexivity | exact I]|].
    split; [exact Hout|].
    rewrite Hp1 in Hf1.
    apply (findOrCreateProcess_found_same _ _ _ _ _ _ _ He1 Hf1).
    destruct status; [right; reflexivity | left; reflexivity].
Qed.

(** The writes of [removeProcess] when the step has a process of the type. *)
Lemma removeProcess_found
      (sm : StatusManager.t) (step : Step.t) (e : Execution.t)
      (process : Process.t) (type : ProcessType) :
  Step.execution step = Some e ->
  JS.find (fun p => type_eqb (Process.type p) type) (Execution.process e) = Some process ->
  exists i : nat,
    Execution.process e !! i = Some process /\
    (forall (j : nat) (q : Process.t),
        (j < i)%nat -> Execution.process e !! j = Some q -> Process.type q <> type) /\
    removeProcess type sm step
    = writeAndPropagate
        (Step.set_execution
           (Some (Execution.set_process
                    (take i (Execution.process e) ++ drop (S i) (Execution.process e)) e))
           step)
        tt sm step.
Proof.
  intros He Hf.
  destruct (findIndexFrom_find _ _ 0 _ Hf) as (i & Hi & Hl & _ & Hfirst).
  exists i. split; [exact Hl|]. split.
  { intros j q Hj Hq Hty. specialize (Hfirst j q Hj Hq).
    unfold type_eqb in Hfirst. apply bool_decide_eq_false_1 in Hfirst. contradiction. }
  unfold removeProcess, writeAndPropagate. unfold bind at 1, getStep.
  rewrite He. unfold JS.findIndex. rewrite Hi, Z.add_0_l. cbv zeta.
  rewrite splice_one by (apply lookup_lt_Some in Hl; exact Hl). reflexivity.
Qed.

(** X9. [removeProcess] deletes the first process of the type and nothing else:
    the processes before it and after it stay, in their order. *)
Theorem removeProcess_removes_first
        (sm : StatusManager.t) (step : Step.t) (e : Execution.t)
        (process : Process.t) (type : ProcessType) :
  Step.execution step = Some e ->
  JS.find (fun p => type_eqb (Process.type p) type) (Execution.process e) = Some process ->
  let r := removeProcess type sm step in
  exists i : nat,
    Execution.process e !! i = Some process /\
    (forall (j : nat) (q : Process.t),
        (j < i)%nat -> Execution.process e !! j = Some q -> Process.type q <> type) /\
    processes (stepAfter r) = take i (Execution.process e) ++ drop (S i) (Execution.process e) /\
    Execution.status <$> Step.execution (stepAfter r) = Some (Execution.status e) /\
    (outcome r = Ok tt \/ outcome r = Throw "Couldn't find a step to update.").
Proof.
  intros He Hf r.
  destruct (removeProcess_found sm step e process type He Hf) as (i & Hl & Hfirst & Hr).
  exists i. split; [exact Hl|]. split; [exact Hfirst|].
  subst r. rewrite Hr.
  destruct (writeAndPropagate_return
              (Step.set_execution
                 (Some (Execution.set_process
                          (take i (Execution.process e)
                             ++ drop (S i) (Execution.process e)) e)) step)
              tt sm step) as [Hstep Hout].
  rewrite Hstep. unfold processes. cbn. auto.
Qed.

(** X10. On a list with at most one process per type, [removeProcess] leaves no
    process of the type it is given and keeps the processes of every other
    type. *)
Theorem removeProcess_unique_type_gone
        (sm : StatusManager.t) (step : Step.t) (e : Execution.t)
        (process : Process.t) (type : ProcessType) :
  Step.execution step = Some e ->
  atMostOnePerType (Execution.process e) ->
  JS.find (fun p => type_eqb (Process.type p) type) (Execution.process e) = Some process ->
  let after := processes (stepAfter (removeProcess type sm step)) in
  ofType type after = [] /\
  forall other : ProcessType,
    other <> type -> ofType other after = ofType other (Execution.process e).
Proof.
  intros He Hone Hf after.
  destruct (removeProcess_found sm step e process type He Hf) as (i & Hl & _ & Hr).
  assert (Hafter : after = take i (Execution.process e) ++ drop (S i) (Execution.process e)).
  { subst after. rewrite Hr, writeAndPropagate_stepAfter. reflexivity. }
  destruct (find_found_type _ _ _ Hf) as [_ Hty].
  pose proof (take_drop_middle _ _ _ Hl) as Hsplit.
  assert (Hp : forall ty, ofType ty (Execution.process e)
                          = ofType ty (take i (Execution.process e))
                              ++ (if type_eqb (Process.type process) ty
                                  then [process] else [])
                              ++ ofType ty (drop (S i) (Execution.process e))).
  { intros ty. rewrite <- Hsplit at 1. rewrite ofType_app. f_equal.
    unfold ofType, JS.filter. cbn. destruct (type_eqb (Process.type process) ty); reflexivity. }
  rewrite Hafter. split.
  - specialize (Hone type). rewrite (Hp type) in Hone.
    unfold type_eqb in Hone. rewrite bool_decide_eq_true_2 in Hone by exact Hty.
    rewrite !length_app in Hone. cbn in Hone. rewrite ofType_app.
    destruct (ofType type (take i (Execution.process e))); [|cbn in Hone; lia].
    destruct (ofType type (drop (S i) (Execution.process e))); [reflexivity|cbn in Hone; lia].
  - intros other Hne. rewrite (Hp other), ofType_app.
    unfold type_eqb. rewrite bool_decide_eq_false_2 by congruence. reflexivity.
Qed.

(** X11. Creating a process of a type that the step does not have and then
    removing the type gives back the step as it was. *)
Theorem create_then_remove
        (sm sm' : StatusManager.t) (step : Step.t) (e : Execution.t)
        (type : ProcessType) (status : option Status) (now : Z) :
  Step.execution step = Some e ->
  ofType type (Execution.process e) = [] ->
  stepAfter (removeProcess type sm'
               (stepAfter (findOrCreateProcess type status now sm step)))
  = step.
Proof.
  intros He Hnone.
  pose proof (ofType_nil_find _ _ Hnone) as Hf.
  destruct (findOrCreateProcess_created type status now sm step e He Hf) as [-> _].
  set (newProcess := Process.mk type (default STARTED status) now
                       (getProcessMessage type (default STARTED status))
                       None None None None None None None None).
  assert (Hnew : type_eqb (Process.type newProcess) type = true)
    by (cbn; unfold type_eqb; apply bool_decide_eq_true_2; reflexivity).
  destruct (find_push (fun p => type_eqb (Process.type p) type) _ newProcess Hf Hnew)
    as [Hf1 _].
  assert (Hr : removeProcess type sm'
                 (Step.set_execution
                    (Some (Execution.set_process (Execution.process e ++ [newProcess]) e))
                    step)
               = writeAndPropagate step tt sm'
                   (Step.set_execution
                      (Some (Execution.set_process (Execution.process e ++ [newProcess]) e))
                      step)).
  { unfold removeProcess, writeAndPropagate. unfold bind at 1, getStep.
    cbn [Step.execution Step.set_execution Execution.process Execution.set_process].
    destruct (find_push (fun p => type_eqb (Process.type p) type) _ newProcess Hf Hnew)
      as [_ ->].
    rewrite splice_one by (rewrite length_app; cbn; lia).
    rewrite take_app_length.
    rewrite drop_ge by (rewrite length_app; cbn; lia).
    rewrite app_nil_r.
    destruct step as [id tool action tr pm pd wi ex]. cbn in He. subst ex.
    destruct e as [st ps rc]. reflexivity. }
  rewrite Hr. apply writeAndPropagate_stepAfter.
Qed.

(** *** What no operation does *)

(** X12. With updates suppressed, no operation calls a hook, changes the flag
    or the ids of the route's steps, and none throws for a step that the
    route does not have: propagation returns before it looks the step up.
    (What the operation writes to the step is written all the same, and
    shows in the route when the route shares the object.) *)
Theorem suppressed_updates_call_no_hook
        (sm : StatusManager.t) (step : Step.t)
        (type : ProcessType) (status : Status) (optional : option Status)
        (receipt : option ReceiptEntries) (params : option OptionalParameters) (now : Z) :
  shouldUpdate sm = false ->
  let silent {A} (r : StatusManager.t * Step.t * Result string A) :=
    hookCalls (manager r) = hookCalls sm /\
    shouldUpdate (manager r) = false /\
    routeIds (manager r) = routeIds sm /\
    outcome r <> Throw "Couldn't find a step to update." in
  silent (initExecutionObject sm step) /\
  silent (updateExecution status receipt sm step) /\
  silent (findOrCreateProcess type optional now sm step) /\
  silent (updateProcess type status params now sm step) /\
  silent (removeProcess type sm step).
Proof.
  intros Hs silent. subst silent. cbv beta.
  assert (Hgen : forall {A} (m : M A),
             (exists w res, behaves m step w res /\
                            res <> Throw "Couldn't find a step to update.") ->
             hookCalls (manager (m sm step)) = hookCalls sm /\
             shouldUpdate (manager (m sm step)) = false /\
             routeIds (manager (m sm step)) = routeIds sm /\
             outcome (m sm step) <> Throw "Couldn't find a step to update.").
  { intros A m (w & res & Hb & Hres).
    destruct (behaves_facts m step w res sm Hb Hres) as (_ & _ & Hsilent).
    destruct (Hsilent Hs) as [-> Hout]. auto. }
  repeat apply conj; apply Hgen;
    auto using initExecutionObject_behaves, updateExecution_behaves,
      findOrCreateProcess_behaves, updateProcess_behaves, removeProcess_behaves.
Qed.

(** X13. What an operation writes to the step does not depend on the manager: the
    step ends in the same state with updates enabled or suppressed, and also
    when propagation throws because the route does not have the step. *)
Theorem step_state_ignores_manager
        (op : Operation) (sm sm' : StatusManager.t) (step : Step.t) :
  snd (perform op sm step) = snd (perform op sm' step).
Proof.
  destruct (perform_behaves op step) as (w & Hw).
  rewrite (Hw sm), (Hw sm'). destruct w; reflexivity.
Qed.

(** X14. An operation calls no hook, or it calls each of the two hooks once,
    the route-update hook of the settings first and the internal callback
    after it, both with the same route. *)
Theorem operation_calls_hooks_once
        (op : Operation) (sm : StatusManager.t) (step : Step.t) :
  let sm' := fst (perform op sm step) in
  hookCalls sm' = hookCalls sm \/
  exists r : Route,
    hookCalls sm' = hookCalls sm ++ [UpdateRouteHook r; InternalUpdateRouteCallback r].
Proof.
  destruct (perform_behaves op step) as (w & Hw).
  rewrite (Hw sm). destruct w as [e|]; cbn [fst]; [|auto].
  destruct (updateStepInRoute_manager sm (Step.set_execution (Some e) step))
    as (_ & _ & [-> | Hcalls]); [auto|].
  right. eexists. exact Hcalls.
Qed.

Lemma perform_manager (op : Operation) (sm : StatusManager.t) (step : Step.t) :
  let sm' := fst (perform op sm step) in
  routeIds sm' = routeIds sm /\
  shouldUpdate sm' = shouldUpdate sm /\
  hookCalls sm `prefix_of` hookCalls sm'.
Proof.
  destruct (perform_behaves op step) as (w & Hw).
  rewrite (Hw sm). destruct w as [e|]; cbn [fst]; [|auto].
  destruct (updateStepInRoute_manager sm (Step.set_execution (Some e) step))
    as (Hids & Hflag & [-> | ->]); repeat split; auto.
  apply prefix_app_r. reflexivity.
Qed.

(** X15. Over any sequence of operations the route has the same step ids in the
    same order, the flag that suppresses updates is not changed, and the hook
    calls made before are followed by the new ones. *)
Theorem route_ids_are_fixed
        (ops : list Operation) (sm : StatusManager.t) (step : Step.t) :
  let sm' := fst (performAll ops sm step) in
  routeIds sm' = routeIds sm /\
  shouldUpdate sm' = shouldUpdate sm /\
  hookCalls sm `prefix_of` hookCalls sm'.
Proof.
  revert sm step. induction ops as [|op rest IH]; intros sm step; cbn [performAll].
  - cbn. auto.
  - destruct (perform op sm step) as [sm1 step1] eqn:Hp.
    pose proof (perform_manager op sm step) as Hm. rewrite Hp in Hm. cbn in Hm.
    destruct Hm as (Hids & Hflag & Hpre).
    destruct (IH sm1 step1) as (Hids' & Hflag' & Hpre').
    cbv zeta. repeat split; [congruence | congruence |].
    etransitivity; eassumption.
Qed.

Lemma perform_step (op : Operation) (sm : StatusManager.t) (step : Step.t) :
  let step' := snd (perform op sm step) in
  Step.set_execution None step' = Step.set_execution None step /\
  (Step.execution step' = None -> Step.execution step = None).
Proof.
  destruct (perform_behaves op step) as (w & Hw).
  rewrite (Hw sm). destruct w as [e|]; cbn [snd]; [|auto].
  split; [reflexivity | discriminate].
Qed.

(** X16. Over any sequence of operations the only field of the step that is
    written is its execution, and an execution that is there is never taken
    away. *)
Theorem operations_write_only_execution
        (ops : list Operation) (sm : StatusManager.t) (step : Step.t) :
  let step' := snd (performAll ops sm step) in
  Step.id step' = Step.id step /\
  Step.tool step' = Step.tool step /\
  Step.action step' = Step.action step /\
  Step.transactionRequest step' = Step.transactionRequest step /\
  Step.permit step' = Step.permit step /\
  Step.permitData step' = Step.permitData step /\
  Step.witness step' = Step.witness step /\
  match Step.execution step with
  | Some _ => Step.execution step' <> None
  | None => True
  end.
Proof.
  assert (Hgen : Step.set_execution None (snd (performAll ops sm step))
                 = Step.set_execution None step /\
                 (Step.execution (snd (performAll ops sm step)) = None ->
                  Step.execution step = None)).
  { revert sm step. induction ops as [|op rest IH]; intros sm step; cbn [performAll].
    - cbn. auto.
    - destruct (perform op sm step) as [sm1 step1] eqn:Hp.
      pose proof (perform_step op sm step) as Hs. rewrite Hp in Hs. cbn in Hs.
      destruct Hs as [Heq Hnone]. destruct (IH sm1 step1) as [Heq' Hnone'].
      split; [congruence | auto]. }
  destruct Hgen as [Heq Hnone]. cbv zeta.
  split; [exact (f_equal Step.id Heq)|].
  split; [exact (f_equal Step.tool Heq)|].
  split; [exact (f_equal Step.action Heq)|].
  split; [exact (f_equal Step.transactionRequest Heq)|].
  split; [exact (f_equal Step.permit Heq)|].
  split; [exact (f_equal Step.permitData Heq)|].
  split; [exact (f_equal Step.witness Heq)|].
  destruct (Step.execution step) eqn:He; [|exact I].
  intros Hn. specialize (Hnone Hn). discriminate.
Qed.

End StatusManagerMore.

(** ** More properties of the submission *)

Section SubmissionMore.
Context `{ProcessMessages}.
Import EVMStepExecutor.

Lemma updateProcess_writes type status params now sm step e currentProcess :
  Step.execution step = Some e ->
  JS.find (fun p => type_eqb (Process.type p) type) (Execution.process e)
  = Some currentProcess ->
  StatusManager.updateProcess type status params now sm step
  = writeAndPropagate
      (Step.set_execution
         (Some (Execution.mk
                  (snd (StatusManager.statusDefaults status now currentProcess
                          (Execution.status e)))
                  (StatusManager.sortProcesses
                     (JS.mutateFound (fun p => type_eqb (Process.type p) type)
                                     (StatusManager.updatedProcess type status params now)
                                     (Execution.process e)))
                  (Execution.receipt e))) step)
      (StatusManager.updatedProcess type status params now currentProcess) sm step.
Proof.
  intros He Hf.
  unfold StatusManager.updateProcess, writeAndPropagate.
  unfold StatusManager.bind at 1, StatusManager.getStep. rewrite He, Hf. reflexivity.
Qed.

(** When propagation goes through, a write returns, and propagation goes
    through for the step as written, with the manager as it then is. *)
Lemma writeAndPropagate_ok {A} (s : Step.t) (a : A) sm step :
  canPropagate sm s = true ->
  exists sm',
    writeAndPropagate s a sm step = (sm', s, Ok a) /\
    forall s', Step.id s' = Step.id s -> canPropagate sm' s' = true.
Proof.
  intros Hc.
  destruct (canPropagate_outcome sm s Hc) as [updated Hu].
  pose proof (writeAndPropagate_stepAfter s a sm step) as Hs.
  pose proof (writeAndPropagate_manager s a sm step) as Hm.
  pose proof (writeAndPropagate_outcome s a sm step) as Ho.
  rewrite Hu in Ho.
  destruct (writeAndPropagate s a sm step) as [[sm' s1] o]. cbn in Hs, Hm, Ho. subst.
  eexists. split; [reflexivity|].
  intros s' Hid. rewrite <- Hc.
  destruct (updateStepInRoute_manager sm s) as (Hids & Hflag & _).
  apply canPropagate_ids; assumption.
Qed.

Lemma run_catchBlock answer clock this step process e :
  exists this' step' x,
    run answer (catchBlock clock this step process e) = ([false], (this', step', Threw x)).
Proof.
  unfold catchBlock. cbn [run].
  destruct (StatusManager.updateProcess _ _ _ _ _ _) as [[sm1 step1] [p1|m1]].
  - destruct (StatusManager.updateExecution _ _ _ _) as [[sm2 step2] [s2|m2]];
      cbn; eauto.
  - cbn; eauto.
Qed.

Lemma run_sendPlain answer clock this locals step process transactionRequest :
  exists this' step',
    (exists h, run answer (sendPlain clock this locals step process transactionRequest)
               = ([true], (this', step', Submitted process h transactionRequest))) \/
    (exists x, run answer (sendPlain clock this locals step process transactionRequest)
               = ([true; false], (this', step', Threw x))).
Proof.
  unfold sendPlain. cbn [run].
  destruct (answer _ _) as [h|e].
  - cbn. eauto.
  - destruct (run_catchBlock answer clock this step process e) as (t & s & x & ->).
    cbn. eauto 7.
Qed.

Lemma run_sendRelayed answer clock this locals step process permitSignature
      transactionRequest :
  exists this' step',
    (exists h, run answer (sendRelayed clock this locals step process permitSignature
                                       transactionRequest)
               = ([true], (this', step', Submitted process h transactionRequest))) \/
    (exists x, run answer (sendRelayed clock this locals step process permitSignature
                                       transactionRequest)
               = ([true; false], (this', step', Threw x))).
Proof.
  unfold sendRelayed. cbn [run].
  destruct (answer _ _) as [h|e].
  - cbn. eauto.
  - destruct (run_catchBlock answer clock this step process e) as (t & s & x & ->).
    cbn. eauto 7.
Qed.


(** X25. The submission returns the step only at the checkpoint: when a run ends by
    returning the step, interaction was not allowed, the [updateProcess] call
    of line 338 had returned, the step returned is the step as that call left
    it, and nothing was awaited. *)
Theorem returns_only_at_checkpoint
        (answer : forall X : Type, Request X -> X)
        (clock : Clock) (this : BaseStepExecutor.t) (locals : Locals)
        (step : Step.t) (process : Process.t) (returned : Step.t) :
  let checkpoint :=
    StatusManager.updateProcess (Process.type process) (requiredStatus locals) None
      (atCheckpoint clock) (BaseStepExecutor.statusManager this) step in
  let r := run answer (submitTransaction clock this locals step process) in
  snd (snd r) = Returned returned ->
  BaseStepExecutor.allowUserInteraction this = false /\
  (exists process1, StatusManager.outcome checkpoint = Ok process1) /\
  returned = StatusManager.stepAfter checkpoint /\
  fst r = [].
Proof.
  cbv zeta. unfold submitTransaction.
  destruct (StatusManager.updateProcess _ _ _ _ _ _) as [[sm1 step1] [p1|m1]].
  2:{ destruct (run_catchBlock answer clock (withStatusManager sm1 this) step1 process
                  (Error m1)) as (t & s & x & ->).
      cbn. discriminate. }
  cbv zeta. cbn [withStatusManager BaseStepExecutor.allowUserInteraction].
  destruct (BaseStepExecutor.allowUserInteraction this); cbn [negb].
  2:{ cbn. intros [= <-]. repeat split; eauto. }
  destruct (atomicBatchSupported locals).
  { cbn [run]. destruct (answer _ _) as [h|e].
    - cbn. discriminate.
    - match goal with
      | |- context [run answer (catchBlock ?c ?t ?s ?p ?e)] =>
          destruct (run_catchBlock answer c t s p e) as (t' & s' & x & ->)
      end. cbn. discriminate. }
  destruct (permitSupported locals).
  2:{ match goal with
      | |- context [run answer (sendPlain ?c ?t ?l ?s ?p ?q)] =>
          destruct (run_sendPlain answer c t l s p q) as (t' & s' & [(h & ->)|(x & ->)])
      end; cbn; discriminate. }
  cbn [run]. destruct (answer _ (SignPermitMessage _)) as [permitSignature|e].
  2:{ match goal with
      | |- context [run answer (catchBlock ?c ?t ?s ?p ?e)] =>
          destruct (run_catchBlock answer c t s p e) as (t' & s' & x & ->)
      end. cbn. discriminate. }
  cbn [run]. cbv zeta.
  destruct (StatusManager.updateProcess _ _ _ _ _ _) as [[sm2 step2] [p2|m2]].
  2:{ match goal with
      | |- context [run answer (catchBlock ?c ?t ?s ?p ?e)] =>
          destruct (run_catchBlock answer c t s p e) as (t' & s' & x & ->)
      end. cbn. discriminate. }
  destruct (isPermitStep locals).
  - match goal with
    | |- context [run answer (sendRelayed ?c ?t ?l ?s ?p ?g ?q)] =>
        destruct (run_sendRelayed answer c t l s p g q) as (t' & s' & [(h & ->)|(x & ->)])
    end; cbn; discriminate.
  - match goal with
    | |- context [run answer (sendPlain ?c ?t ?l ?s ?p ?q)] =>
        destruct (run_sendPlain answer c t l s p q) as (t' & s' & [(h & ->)|(x & ->)])
    end; cbn; discriminate.
Qed.


(** X18. When a request of the submission fails, the [catch] block has the error
    classified and, for a step that has the process and that propagation goes
    through for, leaves the process FAILED with the code and the cause message
    of the classified error and the time of the failure as [doneAt], leaves
    the execution FAILED, and throws the classified error; it submits
    nothing. *)
Theorem catchBlock_records_failure
        (answer : forall X : Type, Request X -> X)
        (clock : Clock) (this : BaseStepExecutor.t) (step : Step.t)
        (process currentProcess : Process.t) (e : Exception) (execution : Execution.t) :
  Step.execution step = Some execution ->
  JS.find (fun p => type_eqb (Process.type p) (Process.type process))
          (Execution.process execution) = Some currentProcess ->
  canPropagate (BaseStepExecutor.statusManager this) step = true ->
  let error := answer _ (ParseEVMErrors e step process) in
  exists (this' : BaseStepExecutor.t) (step' : Step.t) (failed : Process.t),
    run answer (catchBlock clock this step process e)
    = ([false], (this', step', Threw (SDK error))) /\
    Execution.status <$> Step.execution step' = Some FAILED /\
    In failed (StatusManager.processes step') /\
    Process.type failed = Process.type process /\
    Process.status failed = FAILED /\
    Process.error failed = Some (mkProcessError (errorCode error) (causeMessage error)) /\
    Process.doneAt failed = Some (atFailure clock).
Proof.
  intros He Hf Hc error.
  unfold catchBlock. cbn [run]. fold error.
  set (params := Some (StatusManager.mkParams None None None None
                         (Some (Some (mkProcessError (errorCode error)
                                                     (causeMessage error))))
                         None None None)).
  rewrite (updateProcess_writes _ FAILED params (atFailure clock) _ step execution
             currentProcess He Hf).
  match goal with
  | |- context [writeAndPropagate ?s ?a ?sm step] =>
      destruct (writeAndPropagate_ok s a sm step Hc) as (sm1 & -> & Hc1);
      set (step1 := s) in *; set (failed := a) in *
  end.
  rewrite (updateExecution_found FAILED None sm1 step1 _ eq_refl).
  cbv zeta.
  match goal with
  | |- context [writeAndPropagate ?s ?a sm1 step1] =>
      destruct (writeAndPropagate_ok s a sm1 step1 (Hc1 s eq_refl)) as (sm2 & -> & _)
  end.
  eexists _, _, failed. split; [reflexivity|].
  split; [reflexivity|].
  split.
  { change (In failed
               (StatusManager.sortProcesses
                  (JS.mutateFound (fun p => type_eqb (Process.type p) (Process.type process))
                     (StatusManager.updatedProcess (Process.type process) FAILED params
                        (atFailure clock))
                     (Execution.process execution)))).
    apply In_sortProcesses, mutateFound_In. exact Hf. }
  destruct (find_found_type _ _ _ Hf) as [_ Hty].
  subst failed. rewrite updatedProcess_type, updatedProcess_status.
  split; [exact Hty|]. split; [reflexivity|].
  destruct currentProcess; split; reflexivity.
Qed.

Lemma writeAndPropagate_blocked {A} (s : Step.t) (a : A) sm step :
  canPropagate sm s = false ->
  writeAndPropagate s a sm step = (sm, s, Throw "Couldn't find a step to update.").
Proof.
  unfold canPropagate. intros Hc.
  destruct (StatusManager.shouldUpdate sm) eqn:Hs; [|discriminate]. cbn in Hc.
  destruct (JS.find _ _) eqn:Hf; [discriminate|].
  unfold writeAndPropagate, StatusManager.bind, StatusManager.putStep.
  rewrite (updateStepInRoute_missing sm s Hs Hf). reflexivity.
Qed.

(** X19. When updates are enabled and the route does not have the step, the
    [catch] block still leaves the process and the execution FAILED on the
    step, but it throws the error of the status manager in place of the
    classified error, and does not reach [updateExecution]. *)
Theorem catchBlock_masks_error
        (answer : forall X : Type, Request X -> X)
        (clock : Clock) (this : BaseStepExecutor.t) (step : Step.t)
        (process currentProcess : Process.t) (e : Exception) (execution : Execution.t) :
  Step.execution step = Some execution ->
  JS.find (fun p => type_eqb (Process.type p) (Process.type process))
          (Execution.process execution) = Some currentProcess ->
  canPropagate (BaseStepExecutor.statusManager this) step = false ->
  exists (step' : Step.t) (failed : Process.t),
    run answer (catchBlock clock this step process e)
    = ([false], (this, step', Threw (Error "Couldn't find a step to update."))) /\
    Execution.status <$> Step.execution step' = Some FAILED /\
    In failed (StatusManager.processes step') /\
    Process.type failed = Process.type process /\
    Process.status failed = FAILED.
Proof.
  intros He Hf Hc.
  unfold catchBlock. cbn [run].
  match goal with
  | |- context [StatusManager.updateProcess ?t FAILED ?ps ?n ?sm step] =>
      rewrite (updateProcess_writes t FAILED ps n sm step execution currentProcess He Hf)
  end.
  rewrite writeAndPropagate_blocked by exact Hc.
  eexists _, _. split.
  { cbn. destruct this; reflexivity. }
  split; [reflexivity|].
  split.
  { match goal with
    | |- In ?p _ =>
        change (In p
                  (StatusManager.sortProcesses
                     (JS.mutateFound
                        (fun q => type_eqb (Process.type q) (Process.type process))
                        (StatusManager.updatedProcess (Process.type process) FAILED
                           (Some (StatusManager.mkParams None None None None
                                    (Some (Some (mkProcessError
                                             (errorCode (answer _ (ParseEVMErrors e step process)))
                                             (causeMessage (answer _ (ParseEVMErrors e step process))))))
                                    None None None))
                           (atFailure clock))
                        (Execution.process execution))))
    end.
    apply In_sortProcesses, mutateFound_In. exact Hf. }
  destruct (find_found_type _ _ _ Hf) as [_ Hty].
  rewrite updatedProcess_type, updatedProcess_status. auto.
Qed.

End SubmissionMore.

(** ** The pause before submission *)

Section PauseFacts.
Context `{ProcessMessages}.
Import EVMStepExecutor.

Lemma filter_all {A} (f : A -> bool) (l : list A) :
  Forall (fun x => f x = true) l -> List.filter f l = l.
Proof.
  induction 1 as [|x rest Hx _ IH]; cbn; [reflexivity|]. rewrite Hx, IH. reflexivity.
Qed.

Lemma filter_none {A} (f : A -> bool) (l : list A) :
  Forall (fun x => f x = false) l -> List.filter f l = [].
Proof.
  induction 1 as [|x rest Hx _ IH]; cbn; [reflexivity|]. rewrite Hx. exact IH.
Qed.

(** The reordering leaves a list whose DONE processes come first as it is. *)
Lemma sortProcesses_sorted (l : list Process.t) :
  StatusManager.doneFirst l -> StatusManager.sortProcesses l = l.
Proof.
  intros (k & Hdone & Hrest).
  assert (Hd : Forall (fun p => StatusManager.isDone p = true) (take k l)).
  { eapply Forall_impl; [exact Hdone|]. cbn. intros p Hp.
    unfold StatusManager.isDone, status_eqb. apply bool_decide_eq_true_2. exact Hp. }
  assert (Hr : Forall (fun p => StatusManager.isDone p = false) (drop k l)).
  { eapply Forall_impl; [exact Hrest|]. cbn. intros p Hp.
    unfold StatusManager.isDone, status_eqb. apply bool_decide_eq_false_2. exact Hp. }
  unfold StatusManager.sortProcesses, JS.filter.
  rewrite <- (take_drop k l) at 1 2. rewrite !List.filter_app.
  rewrite (filter_all _ _ Hd), (filter_none _ _ Hr).
  rewrite (filter_none (fun p => negb (StatusManager.isDone p)) (take k l)).
  2:{ eapply Forall_impl; [exact Hd|]. cbn. intros p ->. reflexivity. }
  rewrite (filter_all (fun p => negb (StatusManager.isDone p)) (drop k l)).
  2:{ eapply Forall_impl; [exact Hr|]. cbn. intros p ->. reflexivity. }
  rewrite app_nil_r. cbn. apply take_drop.
Qed.

(** C3, as the code has it.  When control reaches line 338 with user
    interaction disallowed, on a step whose execution holds a process of the
    type of the active process (the first one of that type, at index [i])
    and for which propagation goes through, [executeStep] first marks that
    process: it gives it the status ACTION_REQUIRED, or PERMIT_REQUIRED when
    a permit is supported, and the message of that status, and in the first
    case it sets the execution status to ACTION_REQUIRED; the process list is
    reordered with the DONE processes first, which leaves a list that was so
    ordered as it is.  It then returns the step with nothing else changed:
    the other fields of the step, the receipt fields of the execution, the
    other fields of the marked process and the other processes are as they
    were.  No request is awaited, so nothing is signed or submitted, and the
    call returns rather than throws. *)
Theorem executeStep_pause_marks_required_action
        (clock : Clock) (this : BaseStepExecutor.t) (locals : Locals)
        (step : Step.t) (process : Process.t)
        (execution : Execution.t) (currentProcess : Process.t) (i : nat) :
  Step.execution step = Some execution ->
  Execution.process execution !! i = Some currentProcess ->
  Process.type currentProcess = Process.type process ->
  (forall (j : nat) (q : Process.t),
      (j < i)%nat -> Execution.process execution !! j = Some q ->
      Process.type q <> Process.type process) ->
  canPropagate (BaseStepExecutor.statusManager this) step = true ->
  BaseStepExecutor.allowUserInteraction this = false ->
  let required := if permitSupported locals then PERMIT_REQUIRED else ACTION_REQUIRED in
  let marked :=
    Process.set_message (getProcessMessage (Process.type process) required)
                        (Process.set_status required currentProcess) in
  let written := <[i := marked]> (Execution.process execution) in
  exists (this' : BaseStepExecutor.t) (step' : Step.t) (execution' : Execution.t),
    submitTransaction clock this locals step process
    = Return (this', step', Returned step') /\
    (forall answer : (forall X : Type, Request X -> X),
        run answer (submitTransaction clock this locals step process)
        = ([], (this', step', Returned step'))) /\
    Step.execution step' = Some execution' /\
    Step.set_execution None step' = Step.set_execution None step /\
    Execution.status execution'
    = (if permitSupported locals then Execution.status execution else ACTION_REQUIRED) /\
    Execution.receipt execution' = Execution.receipt execution /\
    StatusManager.partitionedDoneFirst written (Execution.process execution') /\
    (StatusManager.doneFirst written -> Execution.process execution' = written) /\
    BaseStepExecutor.allowUserInteraction this' = false /\
    BaseStepExecutor.allowExecution this' = BaseStepExecutor.allowExecution this.
Proof.
  intros He Hi Hty Hfirst Hc Hflag required marked written.
  destruct (find_first_of_type (Process.type process) _ i currentProcess Hi Hty Hfirst)
    as [Hf Hm].
  assert (Hmarked : StatusManager.updatedProcess (Process.type process)
                      (requiredStatus locals) None (atCheckpoint clock) currentProcess
                    = marked).
  { unfold marked, required, requiredStatus, StatusManager.updatedProcess.
    destruct (permitSupported locals); reflexivity. }
  set (execution' :=
         Execution.mk
           (if permitSupported locals then Execution.status execution else ACTION_REQUIRED)
           (StatusManager.sortProcesses written) (Execution.receipt execution)).
  assert (Hw : StatusManager.updateProcess (Process.type process) (requiredStatus locals)
                 None (atCheckpoint clock) (BaseStepExecutor.statusManager this) step
               = writeAndPropagate (Step.set_execution (Some execution') step) marked
                   (BaseStepExecutor.statusManager this) step).
  { rewrite (updateProcess_writes _ _ _ _ _ step execution currentProcess He Hf).
    rewrite Hm, Hmarked. fold written.
    replace (snd (StatusManager.statusDefaults (requiredStatus locals) (atCheckpoint clock)
                    currentProcess (Execution.status execution)))
      with (if permitSupported locals then Execution.status execution else ACTION_REQUIRED)
      by (unfold requiredStatus; destruct (permitSupported locals); reflexivity).
    reflexivity. }
  destruct (writeAndPropagate_ok (Step.set_execution (Some execution') step) marked
              (BaseStepExecutor.statusManager this) step) as (sm' & Hr & _).
  { rewrite <- Hc. apply canPropagate_ids; reflexivity. }
  assert (Hp : submitTransaction clock this locals step process
               = Return (withStatusManager sm' this,
                         Step.set_execution (Some execution') step,
                         Returned (Step.set_execution (Some execution') step))).
  { unfold submitTransaction. rewrite Hw, Hr. cbn. rewrite Hflag. reflexivity. }
  exists (withStatusManager sm' this), (Step.set_execution (Some execution') step),
         execution'.
  split; [exact Hp|].
  split; [intros answer; rewrite Hp; reflexivity|].
  split; [reflexivity|].
  split; [reflexivity|].
  split; [reflexivity|].
  split; [reflexivity|].
  split; [apply sortProcesses_partitioned|].
  split; [apply sortProcesses_sorted|].
  split; [exact Hflag | reflexivity].
Qed.

End PauseFacts.

(** ** More properties of the step executor settings *)

Section BaseStepExecutorMore.
Import BaseStepExecutor.

(** X20. Settings do not accumulate: after two calls of [setInteraction] the
    executor is as after the second call alone, so that a flag the first call
    cleared and the second one omits is [true] again. *)
Theorem setInteraction_last_call_wins
        (this : BaseStepExecutor.t) (first second : option InteractionSettings.t) :
  setInteraction second (setInteraction first this) = setInteraction second this.
Proof.
  destruct this as [[r u h] i x], first as [[a b c]|], second as [[a' b' c']|]; reflexivity.
Qed.

End BaseStepExecutorMore.

(** ** More properties of the Permit2 message builder *)

Section Permit2More.
Context `{Permit2.Environment}.
Import Permit2.

Lemma rangeViolation_withWitness (permit : Permit) (value : WitnessValue) :
  rangeViolation (withWitness permit value) = rangeViolation permit.
Proof. destruct permit; reflexivity. Qed.

Lemma getPermitData_cases (permit : Permit) (permit2Address : string) (chainId : Z)
      (witness : option Witness) :
  getPermitData permit permit2Address chainId witness
  = match rangeViolation permit with
    | Some violation => (permit, Throw (InvariantError violation))
    | None =>
        match permit with
        | Single p =>
            (Single (written p witness),
             Ok (SingleData (mkData (permit2Domain permit2Address chainId)
                                    (builtTypes false witness) (written p witness))))
        | Batch p =>
            (Batch (written p witness),
             Ok (BatchData (mkData (permit2Domain permit2Address chainId)
                                   (builtTypes true witness) (written p witness))))
        end
    end.
Proof.
  destruct permit as [p|p]; unfold getPermitData;
    [rewrite getPermitTransferData_cases | rewrite getPermitBatchTransferData_cases];
    destruct (rangeViolation _); reflexivity.
Qed.

(** X21. With a witness, the types of the data are the witness's own types, the
    token permissions and the primary type.  A witness type that is itself
    named [TokenPermissions] replaces the standard one for a single permit,
    and is replaced by the standard one for a batch permit; a witness type
    named as the primary type is replaced in both. *)
Theorem witness_types_in_data
        (permit : Permit) (permit2Address : string) (chainId : Z) (witness : Witness) :
  rangeViolation permit = None ->
  let single := isPermitTransferFrom permit in
  exists (permit' : Permit) (data : PermitData),
    getPermitData permit permit2Address chainId (Some witness) = (permit', Ok data) /\
    dataTypes data !! "TokenPermissions"
    = Some (if single
            then default TOKEN_PERMISSIONS (witnessType witness !! "TokenPermissions")
            else TOKEN_PERMISSIONS) /\
    forall key : string,
      key <> "TokenPermissions" -> key <> primaryTypeFor (negb single) true ->
      dataTypes data !! key = witnessType witness !! key.
Proof.
  intros Hv single.
  pose proof (getPermitData_cases permit permit2Address chainId (Some witness)) as Hc.
  rewrite Hv in Hc.
  destruct permit as [p|p]; subst single; cbn [isPermitTransferFrom negb];
    eexists _, _; (split; [exact Hc|]);
    cbn [dataTypes types builtTypes primaryTypeFor]; split.
  - rewrite lookup_insert_ne by discriminate. rewrite lookup_union.
    rewrite lookup_singleton_eq. destruct (witnessType witness !! _); reflexivity.
  - intros key Htp Hprimary.
    rewrite lookup_insert_ne by congruence. rewrite lookup_union.
    rewrite lookup_singleton_ne by congruence.
    destruct (witnessType witness !! key); reflexivity.
  - rewrite lookup_insert_ne by discriminate. apply lookup_insert_eq.
  - intros key Htp Hprimary.
    rewrite lookup_insert_ne by congruence. rewrite lookup_insert_ne by congruence.
    reflexivity.
Qed.

(** X22. The [witness] property that a call with a witness wrote on the permit
    object outlives the call: a later call without a witness returns values
    that still carry it, next to types that declare no witness member. *)
Theorem witness_property_outlives_call
        (permit : Permit) (permit2Address permit2Address' : string)
        (chainId chainId' : Z) (witness : Witness) :
  rangeViolation permit = None ->
  let permit1 := fst (getPermitData permit permit2Address chainId (Some witness)) in
  exists data : PermitData,
    getPermitData permit1 permit2Address' chainId' None = (permit1, Ok data) /\
    dataValues data = permit1 /\
    witnessOf (dataValues data) = Some (Permit2.witness witness) /\
    dataTypes data
    = (if isPermitTransferFrom permit
       then PERMIT_TRANSFER_FROM_TYPES
       else PERMIT_BATCH_TRANSFER_FROM_TYPES).
Proof.
  intros Hv permit1.
  assert (H1 : permit1 = withWitness permit (Permit2.witness witness)).
  { subst permit1. rewrite getPermitData_cases, Hv.
    destruct witness as [value typeName type]. destruct permit; reflexivity. }
  pose proof (getPermitData_cases permit1 permit2Address' chainId' None) as Hc.
  rewrite H1 in Hc at 2. rewrite rangeViolation_withWitness, Hv in Hc.
  clearbody permit1. subst permit1.
  destruct permit as [p|p]; eexists; (split; [exact Hc|]); repeat split.
Qed.

(** X23. A second call with the same arguments on the permit object that a call
    has left returns what the first call returned and leaves the object as it
    is. *)
Theorem getPermitData_again
        (permit : Permit) (permit2Address : string) (chainId : Z)
        (witness : option Witness) :
  getPermitData (fst (getPermitData permit permit2Address chainId witness))
                permit2Address chainId witness
  = getPermitData permit permit2Address chainId witness.
Proof.
  assert (H1 : exists permit1,
             fst (getPermitData permit permit2Address chainId witness) = permit1 /\
             (permit1 = permit \/
              rangeViolation permit = None /\
              exists w, witness = Some w /\ permit1 = withWitness permit (Permit2.witness w))).
  { eexists. split; [reflexivity|]. rewrite getPermitData_cases.
    destruct (rangeViolation permit); [left; reflexivity|].
    destruct witness as [[value typeName type]|].
    - right. split; [reflexivity|]. eexists. split; [reflexivity|].
      destruct permit; reflexivity.
    - left. destruct permit; reflexivity. }
  destruct H1 as (permit1 & -> & [-> | (Hv & w & -> & ->)]); [reflexivity|].
  rewrite !getPermitData_cases, rangeViolation_withWitness, Hv.
  destruct w as [value typeName type]. destruct permit as [p|p]; reflexivity.
Qed.

(** X24. A batch permit without any permitted token passes the amount check: with
    its deadline and nonce in range the builder returns the data. *)
Theorem empty_batch_is_accepted
        (permit : PermitBatchTransferFrom) (permit2Address : string) (chainId : Z)
        (witness : option Witness) :
  permitted permit = [] ->
  deadline permit <= MaxSigDeadline ->
  nonce permit <= MaxUnorderedNonce ->
  exists data : PermitBatchTransferFromData,
    snd (getPermitBatchTransferData permit permit2Address chainId witness) = Ok data /\
    permitted (values data) = [].
Proof.
  intros Hp Hd Hn. rewrite getPermitBatchTransferData_cases.
  unfold rangeViolation. cbn [deadlineOf nonceOf amounts]. rewrite Hp. cbn [map existsb].
  replace (MaxSigDeadline <? deadline permit) with false
    by (symmetry; apply Z.ltb_ge; exact Hd).
  replace (MaxUnorderedNonce <? nonce permit) with false
    by (symmetry; apply Z.ltb_ge; exact Hn).
  eexists. split; [reflexivity|].
  destruct witness as [[value typeName type]|]; cbn; exact Hp.
Qed.

End Permit2More.

(** ** Concrete runs *)

Import StatusManager.

(** Resuming a step whose swap process has failed. *)
Lemma initExecutionObject_resumes_failed_witness :
  let step := Step.mk "step-1" "bridge" (Action.mk None "0xToken" 10) None None None None
                (Some (Execution.mk FAILED
                         [Process.mk SWAP FAILED 5 None (Some 7) None None None None None None None]
                         noReceipt)) in
  let r := initExecutionObject (StatusManager.new (mkRoute [step])) step in
  Execution.status <$> Step.execution (stepAfter r) = Some PENDING /\
  processes (stepAfter r)
    = [Process.mk SWAP FAILED 5 None (Some 7) None None None None None None None].
Proof.
  intros step r.
  destruct (initExecutionObject_resumes_failed
              (StatusManager.new (mkRoute [step])) step
              (Execution.mk FAILED
                 [Process.mk SWAP FAILED 5 None (Some 7) None None None None None None None]
                 noReceipt) eq_refl eq_refl) as (_ & Hs & Hp & _).
  split; [exact Hs | exact Hp].
Defined.

#[local] Existing Instance sampleMessages.

(** C1. [removeProcess(step, 'CROSS_CHAIN')] on a step whose processes are an
    allowance process and a swap process, none of type CROSS_CHAIN, returns
    without throwing and deletes the swap process. *)
Theorem removeProcess_absent_type_deletes_last :
  let step := sampleStep (Some (Execution.mk PENDING
                                  [sampleProcess TOKEN_ALLOWANCE DONE;
                                   sampleProcess SWAP PENDING] noReceipt)) in
  let r := removeProcess CROSS_CHAIN sampleManager step in
  JS.find (fun p => type_eqb (Process.type p) CROSS_CHAIN) (processes step) = None /\
  outcome r = Ok tt /\
  processes (stepAfter r) = [sampleProcess TOKEN_ALLOWANCE DONE] /\
  processes (stepAfter r) <> processes step.
Proof. vm_compute. repeat split; discriminate. Qed.

(** C2 fails on the code: a swap process that is DONE is STARTED again after
    [updateProcess(step, 'SWAP', 'STARTED')], and a CANCELLED one becomes
    ACTION_REQUIRED after [findOrCreateProcess(step, 'SWAP', 'ACTION_REQUIRED')];
    neither is a resumption from FAILED. *)
Lemma terminal_status_overwritten :
  let statusOf (step : Step.t) :=
    Process.status
      <$> JS.find (fun p => type_eqb (Process.type p) SWAP) (processes step) in
  let done := sampleStep (Some (Execution.mk DONE [sampleProcess SWAP DONE] noReceipt)) in
  let cancelled :=
    sampleStep (Some (Execution.mk PENDING [sampleProcess SWAP CANCELLED] noReceipt)) in
  (statusOf done = Some DONE /\ isTerminal DONE = true /\
   statusOf (stepAfter (updateProcess SWAP STARTED None 9 sampleManager done))
   = Some STARTED) /\
  (statusOf cancelled = Some CANCELLED /\ isTerminal CANCELLED = true /\
   statusOf (stepAfter (findOrCreateProcess SWAP (Some ACTION_REQUIRED) 9
                                            sampleManager cancelled))
   = Some ACTION_REQUIRED).
Proof. vm_compute. repeat split. Qed.

(** A list of one process has at most one process of each type. *)
Lemma sample_atMostOne (p : Process.t) : atMostOnePerType [p].
Proof. intros ty. unfold ofType, JS.filter. cbn. destruct (type_eqb _ _); cbn; lia. Qed.

(** A swap process that is DONE is set back to PENDING. *)
Lemma status_calls_overwrite_witness :
  let step := sampleStep (Some (Execution.mk DONE [sampleProcess SWAP DONE] noReceipt)) in
  Process.status
    <$> JS.find (fun p => type_eqb (Process.type p) SWAP)
          (processes (stepAfter (updateProcess SWAP PENDING None 9 sampleManager step)))
  = Some PENDING.
Proof.
  intros step.
  destruct (status_calls_overwrite sampleManager step
              (Execution.mk DONE [sampleProcess SWAP DONE] noReceipt)
              (sampleProcess SWAP DONE) SWAP PENDING None 9
              eq_refl (sample_atMostOne _) eq_refl) as [Hu _].
  exact Hu.
Defined.

(** Failing a swap process, with a [doneAt] and a [txHash] of the caller's
    and a [txLink] that the caller passes as [undefined]. *)
Lemma updateProcess_status_effects_witness :
  let swap := Process.set_txLink (Some "https://scan/0x1") (sampleProcess SWAP STARTED) in
  let e := Execution.mk PENDING [swap] noReceipt in
  let params := mkParams (Some (Some 99)) None (Some (Some "0xabc")) (Some None)
                         None None None None in
  let r := updateProcess SWAP FAILED (Some params) 50 sampleManager (sampleStep (Some e)) in
  exists p' : Process.t,
    In p' (processes (stepAfter r)) /\
    Process.status p' = FAILED /\
    Process.doneAt p' = Some 99 /\
    Process.txHash p' = Some "0xabc" /\
    Process.txLink p' = None /\
    Execution.status <$> Step.execution (stepAfter r) = Some FAILED.
Proof.
  intros swap e params r.
  destruct (updateProcess_status_effects sampleManager (sampleStep (Some e)) e
              swap SWAP FAILED (Some params) 50 eq_refl eq_refl)
    as (p' & Hin & _ & _ & Hs & _ & _ & Hd & _ & Hh & Hl & _ & _ & _ & _ & He).
  exists p'. repeat split; assumption.
Defined.

(** C7 fails on the code for a call that throws: on a fresh step, after a
    swap process has been created as PENDING and a destination process as
    DONE, [updateProcess(step, 'CROSS_CHAIN', 'DONE')] finds no process of
    its type, throws, and leaves the list as it was, the DONE process after
    the PENDING one. *)
Lemma throwing_update_leaves_order :
  let init := initExecutionObject sampleManager (sampleStep None) in
  let created :=
    callAll [FindOrCreateProcess SWAP (Some PENDING) 1;
             FindOrCreateProcess RECEIVING_CHAIN (Some DONE) 2]
            (manager init) (stepAfter init) in
  let r := updateProcess CROSS_CHAIN DONE None 3 (fst created) (snd created) in
  outcome r = Throw "Can't find a process for the given type." /\
  Process.status <$> processes (stepAfter r) = [PENDING; DONE] /\
  ~ doneFirst (processes (stepAfter r)).
Proof.
  intros init created r.
  split; [vm_compute; reflexivity|].
  split; [vm_compute; reflexivity|].
  intros (k & Hdone & Hrest).
  destruct k as [|k].
  - vm_compute in Hrest. inversion Hrest as [|p rest _ Htail]; subst.
    inversion Htail as [|q rest' Hq _]; subst. apply Hq. reflexivity.
  - vm_compute in Hdone. inversion Hdone as [|p rest Hp _]; subst. discriminate Hp.
Qed.

(** Completing the swap process of a step with three processes: the swap
    process moves to the front, before the destination process that was
    DONE already, and the allowance process comes last. *)
Lemma updateProcess_partitions_done_first_witness :
  let e := Execution.mk PENDING
             [sampleProcess TOKEN_ALLOWANCE PENDING; sampleProcess SWAP STARTED;
              sampleProcess RECEIVING_CHAIN DONE] noReceipt in
  let after := processes (stepAfter (updateProcess SWAP DONE None 50 sampleManager
                                                   (sampleStep (Some e)))) in
  Process.type <$> after = [SWAP; RECEIVING_CHAIN; TOKEN_ALLOWANCE] /\
  exists written : list Process.t,
    Process.type <$> written = [TOKEN_ALLOWANCE; SWAP; RECEIVING_CHAIN] /\
    Process.status <$> written = [PENDING; DONE; DONE] /\
    partitionedDoneFirst written after /\
    doneFirst after.
Proof.
  intros e after. split; [reflexivity|].
  destruct (updateProcess_partitions_done_first sampleManager (sampleStep (Some e)) e
              (sampleProcess SWAP STARTED) SWAP DONE None 50 1%nat
              eq_refl eq_refl eq_refl)
    as (written & Hw & _ & _ & _ & Hpart & Hd).
  { intros j q Hj Hq. destruct j as [|j]; [|lia].
    injection Hq as <-. discriminate. }
  exists written. rewrite Hw at 1 2. repeat split; assumption.
Defined.

(** Six calls on a fresh step, one of which throws. *)
Lemma one_process_per_type_witness :
  let cs := [FindOrCreateProcess SWAP None 1;
             FindOrCreateProcess SWAP (Some PENDING) 2;
             UpdateProcess SWAP DONE None 3;
             UpdateProcess CROSS_CHAIN DONE None 4;
             FindOrCreateProcess RECEIVING_CHAIN (Some PENDING) 5;
             FindOrCreateProcess SWAP (Some STARTED) 6] in
  let init := initExecutionObject sampleManager (sampleStep None) in
  processes (sampleStep None) = [] /\
  (length (ofType SWAP (processes (snd (callAll cs (manager init) (stepAfter init)))))
   <= 1)%nat.
Proof.
  intros cs init. split; [reflexivity|].
  apply (one_process_per_type sampleManager (sampleStep None) cs).
  intros ty. cbn. lia.
Defined.

(** C3 fails on the code: when control reaches line 338 in a background
    executor, the swap process of the step is STARTED and its execution is
    PENDING; the step that [executeStep] returns has both as
    ACTION_REQUIRED, and the process has a message it did not have. *)
Lemma pause_modifies_step :
  let step := sampleStep (Some (Execution.mk PENDING [sampleProcess SWAP STARTED] noReceipt)) in
  exists this' step',
    BaseStepExecutor.allowUserInteraction backgroundExecutor = false /\
    EVMStepExecutor.submitTransaction sampleClock backgroundExecutor sampleLocals step
                                      (sampleProcess SWAP STARTED)
    = EVMStepExecutor.Return (this', step', EVMStepExecutor.Returned step') /\
    step' <> step /\
    Process.status <$> processes step = [STARTED] /\
    Process.status <$> processes step' = [ACTION_REQUIRED] /\
    Process.message <$> processes step = [None] /\
    Process.message <$> processes step' = [Some "In progress."] /\
    Execution.status <$> Step.execution step = Some PENDING /\
    Execution.status <$> Step.execution step' = Some ACTION_REQUIRED.
Proof.
  intros step. eexists _, _.
  split; [reflexivity|].
  split; [vm_compute; reflexivity|].
  split; [vm_compute; discriminate|].
  vm_compute. repeat split.
Qed.

(** A background executor reaching line 338 with a swap to submit. *)
Lemma executeStep_pause_marks_required_action_witness :
  let step := sampleStep (Some (Execution.mk PENDING [sampleProcess SWAP STARTED] noReceipt)) in
  let marked :=
    Process.set_message (Some "In progress.")
                        (Process.set_status ACTION_REQUIRED (sampleProcess SWAP STARTED)) in
  exists this' step' execution',
    EVMStepExecutor.submitTransaction sampleClock backgroundExecutor sampleLocals step
                                      (sampleProcess SWAP STARTED)
    = EVMStepExecutor.Return (this', step', EVMStepExecutor.Returned step') /\
    Step.execution step' = Some execution' /\
    Execution.status execution' = ACTION_REQUIRED /\
    Execution.process execution' = [marked].
Proof.
  intros step marked.
  destruct (executeStep_pause_marks_required_action sampleClock backgroundExecutor
              sampleLocals step (sampleProcess SWAP STARTED)
              (Execution.mk PENDING [sampleProcess SWAP STARTED] noReceipt)
              (sampleProcess SWAP STARTED) 0%nat eq_refl eq_refl eq_refl)
    as (this' & step' & execution' & Hp & _ & He & _ & Hs & _ & _ & Hl & _).
  { intros j q Hj. lia. }
  { reflexivity. }
  { reflexivity. }
  exists this', step', execution'.
  split; [exact Hp|]. split; [exact He|]. split; [exact Hs|].
  rewrite Hl; [reflexivity|].
  exists 0%nat. split; [constructor|].
  constructor; [discriminate | constructor].
Defined.

(** The step that the pause returns differs from the step as it was before
    line 338: its swap process and its execution are ACTION_REQUIRED. *)
Example pause_returns_action_required :
  let step := sampleStep (Some (Execution.mk PENDING [sampleProcess SWAP STARTED] noReceipt)) in
  exists this' step',
    EVMStepExecutor.submitTransaction sampleClock backgroundExecutor sampleLocals step
                                      (sampleProcess SWAP STARTED)
    = EVMStepExecutor.Return (this', step', EVMStepExecutor.Returned step') /\
    Process.status <$> processes step' = [ACTION_REQUIRED] /\
    Execution.status <$> Step.execution step' = Some ACTION_REQUIRED.
Proof. intros step. eexists _, _. vm_compute. repeat split. Qed.

(** With interaction allowed the same call goes on to [sendTransaction]. *)
Example submission_when_interaction_allowed :
  let step := sampleStep (Some (Execution.mk PENDING [sampleProcess SWAP STARTED] noReceipt)) in
  fst (EVMStepExecutor.run
         (fun X request =>
            match request in EVMStepExecutor.Request X return X with
            | EVMStepExecutor.SendCalls _ _ => Ok "0xbatch"
            | EVMStepExecutor.SignPermitMessage _ =>
                Ok (EVMStepExecutor.mkPermitSignature "0xsig" "0xsigned")
            | EVMStepExecutor.EstimateGas _ _ _ _ => Ok 21000
            | EVMStepExecutor.RelayTransaction _ => Ok "task-1"
            | EVMStepExecutor.SendTransaction _ _ => Ok "0xhash"
            | EVMStepExecutor.ParseEVMErrors _ _ _ =>
                EVMStepExecutor.mkSDKError "1000" "unknown"
            end)
         (EVMStepExecutor.submitTransaction sampleClock
            (BaseStepExecutor.new sampleManager) sampleLocals step
            (sampleProcess SWAP STARTED)))
  = [true].
Proof. vm_compute. reflexivity. Qed.

#[local] Existing Instance Permit2.sampleEnvironment.

(** C4 fails on the code: after [getPermitTransferData] with a witness the
    caller's permit object has a [witness] property that it did not have
    before, and so it has after [getPermitData] and after [hash]. *)
Lemma permit_object_gains_witness :
  Permit2.witnessProperty samplePermit = None /\
  Permit2.witnessProperty
    (fst (Permit2.getPermitTransferData samplePermit "0xPermit2" 1 (Some sampleWitness)))
  = Some "order-7" /\
  fst (Permit2.getPermitTransferData samplePermit "0xPermit2" 1 (Some sampleWitness))
  <> samplePermit /\
  fst (Permit2.getPermitData (Permit2.Single samplePermit) "0xPermit2" 1
                             (Some sampleWitness))
  <> Permit2.Single samplePermit /\
  fst (Permit2.hash sampleHashTypedData (Permit2.Single samplePermit) "0xPermit2" 1
                    (Some sampleWitness))
  <> Permit2.Single samplePermit.
Proof.
  unfold Permit2.hash, Permit2.getPermitData.
  rewrite getPermitTransferData_cases.
  assert (Hv : Permit2.rangeViolation (Permit2.Single samplePermit) = None)
    by (vm_compute; reflexivity).
  rewrite Hv. cbn. repeat split; discriminate.
Qed.

(** The permits of the range checks, run on the Permit2 bounds. *)
Example late_deadline_is_refused :
  snd (Permit2.getPermitData
         (Permit2.Single (Permit2.mkPermit (Permit2.mkTokenPermissions "0xToken" 1000)
                                           "0xSpender" 7 (2 ^ 256) None))
         "0xPermit2" 1 None)
  = Throw (Permit2.InvariantError "SIG_DEADLINE_OUT_OF_RANGE").
Proof.
  unfold Permit2.getPermitData. rewrite getPermitTransferData_cases.
  vm_compute. reflexivity.
Qed.

Example batch_witness_primary_type :
  snd (Permit2.hash sampleHashTypedData
         (Permit2.Batch (Permit2.mkPermit [Permit2.mkTokenPermissions "0xToken" 1000;
                                           Permit2.mkTokenPermissions "0xOther" 5]
                                          "0xSpender" 7 1900000000 None))
         "0xPermit2" 1 (Some sampleWitness))
  = Ok "PermitBatchWitnessTransferFrom".
Proof.
  unfold Permit2.hash. rewrite getPermitBatchTransferData_cases.
  assert (Hv : Permit2.rangeViolation
                 (Permit2.Batch (Permit2.mkPermit
                                   [Permit2.mkTokenPermissions "0xToken" 1000;
                                    Permit2.mkTokenPermissions "0xOther" 5]
                                   "0xSpender" 7 1900000000 None)) = None)
    by (vm_compute; reflexivity).
  rewrite Hv. reflexivity.
Qed.

(** *** Runs of the further properties *)

(** The initializer on a step that has not been executed. *)
Lemma initExecutionObject_creates_execution_witness :
  Step.execution (stepAfter (initExecutionObject sampleManager (sampleStep None)))
  = Some (Execution.mk PENDING [] noReceipt).
Proof.
  destruct (initExecutionObject_creates_execution sampleManager (sampleStep None) eq_refl)
    as [Hstep _].
  rewrite Hstep. reflexivity.
Defined.

(** Completing the execution of a swap with the amount received, and with a
    [fromAmount] that the caller passes as [undefined]. *)
Lemma updateExecution_effects_witness :
  let e := Execution.mk PENDING [sampleProcess SWAP STARTED]
             (mkReceipt (Some "1000") None None (Some "7") None None None None) in
  let receipt :=
    mkReceiptEntries (Some None) (Some (Some "990")) None None None None None None in
  exists e' : Execution.t,
    Step.execution (stepAfter (updateExecution DONE (Some receipt) sampleManager
                                               (sampleStep (Some e))))
    = Some e' /\
    Execution.status e' = DONE /\
    Execution.process e' = [sampleProcess SWAP STARTED] /\
    fromAmount (Execution.receipt e') = None /\
    toAmount (Execution.receipt e') = Some "990" /\
    gasPrice (Execution.receipt e') = Some "7".
Proof.
  intros e receipt.
  destruct (updateExecution_effects sampleManager (sampleStep (Some e)) e
              DONE (Some receipt) eq_refl)
    as (e' & He & Hs & Hp & Hf & Ht & _ & Hg & _).
  exists e'. repeat split; assumption.
Defined.

(** Removing a process from a step that has not been initialized. *)
Lemma missing_execution_throws_witness :
  removeProcess SWAP sampleManager (sampleStep None)
  = (sampleManager, sampleStep None, Throw "Execution hasn't been initialized.").
Proof.
  destruct (missing_execution_throws sampleManager (sampleStep None) SWAP DONE None None
              None 1 eq_refl) as (_ & _ & _ & Hr).
  exact Hr.
Defined.

(** Updating the bridge process of a step that only has a swap process. *)
Lemma updateProcess_missing_type_throws_witness :
  updateProcess CROSS_CHAIN PENDING None 9 sampleManager sampleSwapStep
  = (sampleManager, sampleSwapStep, Throw "Can't find a process for the given type.").
Proof.
  destruct (updateProcess_missing_type_throws sampleManager sampleSwapStep
              (Execution.mk PENDING [sampleProcess SWAP STARTED] noReceipt)
              CROSS_CHAIN PENDING None 9 eq_refl eq_refl) as [Hr _].
  exact Hr.
Defined.

(** Adding the destination process to a step that has a swap process. *)
Lemma findOrCreateProcess_appends_witness :
  processes (stepAfter (findOrCreateProcess RECEIVING_CHAIN (Some PENDING) 9
                                            sampleManager sampleSwapStep))
  = [sampleProcess SWAP STARTED;
     Process.mk RECEIVING_CHAIN PENDING 9 (Some "In progress.")
                None None None None None None None None].
Proof.
  destruct (findOrCreateProcess_appends sampleManager sampleSwapStep
              (Execution.mk PENDING [sampleProcess SWAP STARTED] noReceipt)
              RECEIVING_CHAIN (Some PENDING) 9 eq_refl eq_refl) as [Hp _].
  exact Hp.
Defined.

(** Looking up the swap process of a step. *)
Lemma findOrCreateProcess_existing_is_silent_witness :
  findOrCreateProcess SWAP None 9 sampleManager sampleSwapStep
  = (sampleManager, sampleSwapStep, Ok (sampleProcess SWAP STARTED)).
Proof.
  destruct (findOrCreateProcess_existing_is_silent sampleManager sampleSwapStep
              (Execution.mk PENDING [sampleProcess SWAP STARTED] noReceipt)
              (sampleProcess SWAP STARTED) SWAP 9 eq_refl eq_refl) as [Hr _].
  exact Hr.
Defined.

(** Asking twice for the swap process as PENDING. *)
Lemma findOrCreateProcess_twice_witness :
  let first := findOrCreateProcess SWAP (Some PENDING) 9 sampleManager sampleSwapStep in
  exists p : Process.t,
    Process.status p = PENDING /\
    findOrCreateProcess SWAP (Some PENDING) 12 (manager first) (stepAfter first)
    = (manager first, stepAfter first, Ok p).
Proof.
  intros first.
  destruct (findOrCreateProcess_twice sampleManager (manager first) sampleSwapStep
              (Execution.mk PENDING [sampleProcess SWAP STARTED] noReceipt)
              SWAP (Some PENDING) 9 12 eq_refl) as (p & _ & _ & Hs & _ & Hr).
  exists p. split; [exact Hs | exact Hr].
Defined.

(** Removing the swap process from between two others. *)
Lemma removeProcess_removes_first_witness :
  let before := [sampleProcess TOKEN_ALLOWANCE DONE; sampleProcess SWAP PENDING;
                 sampleProcess RECEIVING_CHAIN PENDING] in
  exists i : nat,
    before !! i = Some (sampleProcess SWAP PENDING) /\
    processes (stepAfter (removeProcess SWAP sampleManager sampleBridgeStep))
    = take i before ++ drop (S i) before.
Proof.
  intros before.
  destruct (removeProcess_removes_first sampleManager sampleBridgeStep
              (Execution.mk PENDING before noReceipt)
              (sampleProcess SWAP PENDING) SWAP eq_refl eq_refl)
    as (i & Hl & _ & Hp & _).
  exists i. split; [exact Hl | exact Hp].
Defined.

(** The three processes of the sample bridge step have three types. *)
Lemma sampleBridgeStep_atMostOne :
  atMostOnePerType [sampleProcess TOKEN_ALLOWANCE DONE; sampleProcess SWAP PENDING;
                    sampleProcess RECEIVING_CHAIN PENDING].
Proof. intros ty. destruct ty; vm_compute; lia. Qed.

(** After the removal the step has no swap process. *)
Lemma removeProcess_unique_type_gone_witness :
  ofType SWAP (processes (stepAfter (removeProcess SWAP sampleManager sampleBridgeStep)))
  = [].
Proof.
  destruct (removeProcess_unique_type_gone sampleManager sampleBridgeStep
              (Execution.mk PENDING
                 [sampleProcess TOKEN_ALLOWANCE DONE; sampleProcess SWAP PENDING;
                  sampleProcess RECEIVING_CHAIN PENDING] noReceipt)
              (sampleProcess SWAP PENDING) SWAP eq_refl sampleBridgeStep_atMostOne eq_refl)
    as [Hgone _].
  exact Hgone.
Defined.

(** Creating and discarding an allowance process. *)
Lemma create_then_remove_witness :
  stepAfter (removeProcess TOKEN_ALLOWANCE sampleManager
               (stepAfter (findOrCreateProcess TOKEN_ALLOWANCE None 9
                                               sampleManager sampleSwapStep)))
  = sampleSwapStep.
Proof.
  apply (create_then_remove sampleManager sampleManager sampleSwapStep
           (Execution.mk PENDING [sampleProcess SWAP STARTED] noReceipt)
           TOKEN_ALLOWANCE None 9 eq_refl eq_refl).
Defined.

(** Updating a process of a step that the route does not have, with updates
    suppressed. *)
Lemma suppressed_updates_call_no_hook_witness :
  let sm := allowUpdates false (StatusManager.new (mkRoute [])) in
  hookCalls (manager (updateProcess SWAP DONE None 9 sm sampleSwapStep)) = [] /\
  outcome (updateProcess SWAP DONE None 9 sm sampleSwapStep)
  <> Throw "Couldn't find a step to update.".
Proof.
  intros sm.
  destruct (suppressed_updates_call_no_hook sm sampleSwapStep SWAP DONE None None None 9
              eq_refl) as (_ & _ & _ & (Hcalls & _ & _ & Hout) & _).
  split; [exact Hcalls | exact Hout].
Defined.

(** A rejected request on the swap step of the sample route. *)
Lemma catchBlock_records_failure_witness :
  exists (this' : BaseStepExecutor.t) (step' : Step.t) (failed : Process.t),
    EVMStepExecutor.run sampleAnswer
      (EVMStepExecutor.catchBlock sampleClock (BaseStepExecutor.new sampleManager)
         sampleSwapStep (sampleProcess SWAP STARTED) (EVMStepExecutor.Error "rejected"))
    = ([false],
       (this', step',
        EVMStepExecutor.Threw
          (EVMStepExecutor.SDK (EVMStepExecutor.mkSDKError "1000" "unknown")))) /\
    Execution.status <$> Step.execution step' = Some FAILED /\
    In failed (processes step') /\
    Process.status failed = FAILED /\
    Process.error failed = Some (mkProcessError "1000" "unknown").
Proof.
  destruct (catchBlock_records_failure sampleAnswer sampleClock
              (BaseStepExecutor.new sampleManager) sampleSwapStep
              (sampleProcess SWAP STARTED) (sampleProcess SWAP STARTED)
              (EVMStepExecutor.Error "rejected")
              (Execution.mk PENDING [sampleProcess SWAP STARTED] noReceipt)
              eq_refl eq_refl eq_refl)
    as (this' & step' & failed & Hr & He & Hin & _ & Hs & Herr & _).
  exists this', step', failed. repeat split; assumption.
Defined.

(** The same rejected request when the route is empty. *)
Lemma catchBlock_masks_error_witness :
  exists (step' : Step.t),
    EVMStepExecutor.run sampleAnswer
      (EVMStepExecutor.catchBlock sampleClock
         (BaseStepExecutor.new (StatusManager.new (mkRoute [])))
         sampleSwapStep (sampleProcess SWAP STARTED) (EVMStepExecutor.Error "rejected"))
    = ([false],
       (BaseStepExecutor.new (StatusManager.new (mkRoute [])), step',
        EVMStepExecutor.Threw (EVMStepExecutor.Error "Couldn't find a step to update."))) /\
    Execution.status <$> Step.execution step' = Some FAILED.
Proof.
  destruct (catchBlock_masks_error sampleAnswer sampleClock
              (BaseStepExecutor.new (StatusManager.new (mkRoute [])))
              sampleSwapStep
              (sampleProcess SWAP STARTED) (sampleProcess SWAP STARTED)
              (EVMStepExecutor.Error "rejected")
              (Execution.mk PENDING [sampleProcess SWAP STARTED] noReceipt)
              eq_refl eq_refl eq_refl)
    as (step' & failed & Hr & He & _).
  exists step'. split; assumption.
Defined.

(** The sample permit is in range. *)
Lemma samplePermit_in_range :
  Permit2.rangeViolation (Permit2.Single samplePermit) = None.
Proof. vm_compute. reflexivity. Qed.

(** The types built for the sample permit and its witness. *)
Lemma witness_types_in_data_witness :
  exists (permit' : Permit2.Permit) (data : Permit2.PermitData),
    Permit2.getPermitData (Permit2.Single samplePermit) "0xPermit2" 1 (Some sampleWitness)
    = (permit', Ok data) /\
    Permit2.dataTypes data !! "Order" = Some [Permit2.param "id" "uint256"].
Proof.
  destruct (witness_types_in_data (Permit2.Single samplePermit) "0xPermit2" 1
              sampleWitness samplePermit_in_range)
    as (permit' & data & Hr & _ & Hother).
  exists permit', data. split; [exact Hr|].
  rewrite Hother by discriminate. reflexivity.
Defined.

(** A call with the sample witness followed by a call without one. *)
Lemma witness_property_outlives_call_witness :
  let permit1 :=
    fst (Permit2.getPermitData (Permit2.Single samplePermit) "0xPermit2" 1
                               (Some sampleWitness)) in
  exists data : Permit2.PermitData,
    Permit2.getPermitData permit1 "0xPermit2" 1 None = (permit1, Ok data) /\
    witnessOf (Permit2.dataValues data) = Some "order-7" /\
    Permit2.dataTypes data = Permit2.PERMIT_TRANSFER_FROM_TYPES.
Proof.
  intros permit1.
  destruct (witness_property_outlives_call (Permit2.Single samplePermit)
              "0xPermit2" "0xPermit2" 1 1 sampleWitness samplePermit_in_range)
    as (data & Hr & _ & Hw & Ht).
  exists data. repeat split; assumption.
Defined.

(** A batch permit for no token at all. *)
Lemma empty_batch_is_accepted_witness :
  exists data : Permit2.PermitBatchTransferFromData,
    snd (Permit2.getPermitBatchTransferData
           (Permit2.mkPermit [] "0xSpender" 7 1900000000 None) "0xPermit2" 1 None)
    = Ok data.
Proof.
  assert (Hd : 1900000000 <= @Permit2.MaxSigDeadline Permit2.sampleEnvironment)
    by (vm_compute; discriminate).
  assert (Hn : 7 <= @Permit2.MaxUnorderedNonce Permit2.sampleEnvironment)
    by (vm_compute; discriminate).
  destruct (empty_batch_is_accepted
              (Permit2.mkPermit [] "0xSpender" 7 1900000000 None) "0xPermit2" 1 None
              eq_refl Hd Hn)
    as (data & Hr & _).
  exists data. exact Hr.
Defined.

(** A background executor on the swap step: the run returns the step. *)
Lemma returns_only_at_checkpoint_witness :
  BaseStepExecutor.allowUserInteraction backgroundExecutor = false /\
  fst (EVMStepExecutor.run sampleAnswer
         (EVMStepExecutor.submitTransaction sampleClock backgroundExecutor sampleLocals
            sampleSwapStep (sampleProcess SWAP STARTED)))
  = [].
Proof.
  destruct (returns_only_at_checkpoint sampleAnswer sampleClock backgroundExecutor
              sampleLocals sampleSwapStep (sampleProcess SWAP STARTED)
              (stepAfter (updateProcess SWAP ACTION_REQUIRED None 50 sampleManager
                                        sampleSwapStep))
              eq_refl) as (Hflag & _ & _ & Hmade).
  split; [exact Hflag | exact Hmade].
Defined.

